(** * NeighborhoodLife: schedule generation and alarm-driven execution

    A shallow embedding of the [neighborhood_life] package
    ([util.py], [schedules.py], [director.py], [news.py], [actions.py],
    [bootstrap.py]) and the properties of its schedule builder, weighted
    selector, configuration cache and alarm state machine; and of the
    helpers of [ts4script_tool_gui.py] that decide what is ignored, packed
    and signed.

    Conventions of the embedding:
    - Python [int] is [Z]; Python [float] is IEEE 754 binary64, with the
      operations of [SpecFloat] at precision 53: sums and products round to
      nearest, ties to even, and overflow to an infinity;
    - the numbers of the weight tables are floats, as the annotations
      [Dict[str, float]] say; an integer of the config file behaves as the
      float of the same value as long as it and the sums it enters stay
      below 2^53;
    - a Python [str] is a [string] whose characters are the code points
      below 256;
    - a Python [dict] is an association list in insertion order, since the
      selector and the alarm scheduler both depend on iteration order;
    - a raised exception is the [inl] branch of a [Res];
    - the [random] module reads an entropy tape, every primitive mapping the
      next raw number into the range the library documents;
    - the game services (sim manager, clock, weather, alarm facility) are an
      explicit environment and an explicit host state;
    - [log] only prints, and is left out. *)

From Stdlib Require Import ZArith NArith List String Ascii Bool Lia
  Permutation SpecFloat.
Import ListNotations.

Local Open Scope Z_scope.

(* ===================================================================== *)
(** ** Python runtime: exceptions, dictionaries, strings, [random]        *)
(* ===================================================================== *)

Module Py.

(** The built-in exceptions the package can raise. *)
Inductive Exn : Type :=
| ValueError
| IndexError
| KeyError
| TypeError
| AttributeError
| OSError.

Definition Res (A : Type) : Type := (Exn + A)%type.

Definition ok {A} (a : A) : Res A := inr a.
Definition raise {A} (e : Exn) : Res A := inl e.

(** *** Computations that draw from the random source *)

(** The entropy tape feeding [random]; an exhausted tape yields zeros. *)
Definition Rng : Type := list N.

Definition next_raw (g : Rng) : N * Rng :=
  match g with
  | [] => (0%N, [])
  | x :: g' => (x, g')
  end.

Definition Comp (A : Type) : Type := Rng -> Res (A * Rng).

Definition ret {A} (a : A) : Comp A := fun g => inr (a, g).

Definition bind {A B} (c : Comp A) (k : A -> Comp B) : Comp B :=
  fun g =>
    match c g with
    | inl e => inl e
    | inr (a, g') => k a g'
    end.

Definition lift {A} (r : Res A) : Comp A :=
  fun g => match r with inl e => inl e | inr a => inr (a, g) end.

(** [for x in xs: body], collecting what each iteration appends. *)
Fixpoint for_each {A B} (body : A -> Comp B) (xs : list A) : Comp (list B) :=
  match xs with
  | [] => ret []
  | x :: xs' =>
      bind (body x) (fun b =>
      bind (for_each body xs') (fun bs => ret (b :: bs)))
  end.

(** *** Ordered dictionaries *)

Section Dict.
Context {K V : Type} (keqb : K -> K -> bool).

Definition dict : Type := list (K * V).

Fixpoint dict_get (k : K) (d : dict) : option V :=
  match d with
  | [] => None
  | (k', v) :: d' => if keqb k k' then Some v else dict_get k d'
  end.

(** [d[k] = v]: an existing key keeps its position, a new key goes last. *)
Fixpoint dict_set (k : K) (v : V) (d : dict) : dict :=
  match d with
  | [] => [(k, v)]
  | (k', v') :: d' =>
      if keqb k k' then (k', v) :: d' else (k', v') :: dict_set k v d'
  end.

Definition keys (d : dict) : list K := map fst d.
Definition values (d : dict) : list V := map snd d.
End Dict.

Arguments dict : clear implicits.

(** *** Floats *)

(** A Python [float]: a binary64 number. Arithmetic never raises; a
    comparison with nan is false. *)
Definition float : Type := spec_float.

Definition prec : Z := 53.
Definition emax : Z := 1024.

Definition fadd : float -> float -> float := SFadd prec emax.
Definition fsub : float -> float -> float := SFsub prec emax.
Definition fmul : float -> float -> float := SFmul prec emax.
Definition fneg : float -> float := SFopp.

(** [a < b] and [a <= b] *)
Definition flt : float -> float -> bool := SFltb.
Definition fle : float -> float -> bool := SFleb.

(** The literal [0.0], and the float an integer literal stands for. *)
Definition fzero : float := S754_zero false.
Definition float_of_Z (z : Z) : float := binary_normalize prec emax z 0 false.

(** *** Strings *)

(** [s.split(sep)] for a one-character separator. *)
Fixpoint split (sep : ascii) (s : string) : list string :=
  match s with
  | EmptyString => [EmptyString]
  | String c r =>
      if Ascii.eqb c sep then EmptyString :: split sep r
      else match split sep r with
           | hd :: tl => String c hd :: tl
           | [] => [String c EmptyString]
           end
  end.

(** [needle in hay] on strings. *)
Fixpoint contains (needle hay : string) : bool :=
  String.prefix needle hay ||
  match hay with
  | EmptyString => false
  | String _ r => contains needle r
  end.

Fixpoint rev_string (acc s : string) : string :=
  match s with
  | EmptyString => acc
  | String c r => rev_string (String c acc) r
  end.

(** *** [int] of a string *)

(** The white space [int] skips around the number: tab to carriage return
    and the space, and of the characters above 127 those that are white
    space, U+0085 and U+00A0. The separators U+001C to U+001F are not
    skipped. *)
Definition is_int_space (c : ascii) : bool :=
  let n := nat_of_ascii c in
  ((9 <=? n)%nat && (n <=? 13)%nat) || (n =? 32)%nat
  || (n =? 133)%nat || (n =? 160)%nat.

Fixpoint lstrip_int (s : string) : string :=
  match s with
  | String c r => if is_int_space c then lstrip_int r else s
  | EmptyString => EmptyString
  end.

Definition strip_int (s : string) : string :=
  rev_string EmptyString
    (lstrip_int (rev_string EmptyString (lstrip_int s))).

Definition digit_of (c : ascii) : option Z :=
  let n := nat_of_ascii c in
  if ((48 <=? n)%nat && (n <=? 57)%nat) then Some (Z.of_nat n - 48) else None.

(** Where the digit scanner stands: nothing read, after a digit, after an
    underscore. Python accepts single underscores between digits only. *)
Inductive DigitState : Type := AtStart | AfterDigit | AfterUnderscore.

Fixpoint digits_value (st : DigitState) (acc : Z) (s : string) : option Z :=
  match s with
  | EmptyString =>
      match st with AfterDigit => Some acc | _ => None end
  | String c r =>
      match digit_of c with
      | Some d => digits_value AfterDigit (10 * acc + d) r
      | None =>
          if Ascii.eqb c "_"%char then
            match st with
            | AfterDigit => digits_value AfterUnderscore acc r
            | _ => None
            end
          else None
      end
  end.

Fixpoint count_digits (s : string) : nat :=
  match s with
  | EmptyString => O
  | String c r =>
      match digit_of c with
      | Some _ => S (count_digits r)
      | None => count_digits r
      end
  end.

(** Whether a number of [digits] digits is refused:
    [max_str_digits] is [sys.get_int_max_str_digits()], 0 when there is no
    limit (as in every interpreter before 3.11); the limit is only looked
    at above 640 digits. *)
Definition too_many_digits (max_str_digits digits : nat) : bool :=
  (0 <? max_str_digits)%nat && (640 <? digits)%nat
  && (max_str_digits <? digits)%nat.

(** [int(s)] for a string: surrounding white space, an optional sign,
    decimal digits. A decimal digit has a code point of 48 to 57: there is
    no other below 256. *)
Definition int_of_str (max_str_digits : nat) (s : string) : Res Z :=
  let body := strip_int s in
  let signed :=
    match body with
    | String "-"%char r => (true, r)
    | String "+"%char r => (false, r)
    | _ => (false, body)
    end in
  match digits_value AtStart 0 (snd signed) with
  | Some n =>
      if too_many_digits max_str_digits (count_digits (snd signed))
      then raise ValueError
      else ok (if fst signed then - n else n)
  | None => raise ValueError
  end.

(** *** The [random] module *)

(** [random.random()]: 53 random bits scaled by 2^-53, a float of
    [0.0, 1.0). *)
Definition two53 : Z := 9007199254740992.

Definition random : Comp float :=
  fun g =>
    let (x, g') := next_raw g in
    inr (binary_normalize prec emax (Z.of_N x mod two53) (-53) false, g').

(** [random.uniform(a, b)] is [a + (b - a) * random()]. *)
Definition uniform (a b : float) : Comp float :=
  bind random (fun u => ret (fadd a (fmul (fsub b a) u))).

(** [random.randint(a, b)]: an integer of [a, b], both ends included;
    an empty range raises. *)
Definition randint (a b : Z) : Comp Z :=
  fun g =>
    if b <? a then inl ValueError
    else
      let (x, g') := next_raw g in
      inr (a + Z.of_N x mod (b - a + 1), g').

(** [randbelow(n)] for [n > 0]. *)
Definition randbelow (n : nat) (x : N) : nat :=
  N.to_nat (x mod N.of_nat n)%N.

(** [random.choice(seq)]: raises on an empty sequence. *)
Definition choice {A} (seq : list A) : Comp A :=
  fun g =>
    let (x, g') := next_raw g in
    match nth_error seq (randbelow (List.length seq) x) with
    | Some a => inr (a, g')
    | None => inl IndexError
    end.

(** [x[i] = v] for an index in range. *)
Definition set_nth {A} (i : nat) (v : A) (l : list A) : list A :=
  firstn i l ++ v :: skipn (S i) l.

(** [x[i], x[j] = x[j], x[i]]: both reads, then the two writes. *)
Definition swap {A} (i j : nat) (l : list A) : list A :=
  match nth_error l i, nth_error l j with
  | Some a, Some b => set_nth j a (set_nth i b l)
  | _, _ => l
  end.

(** The loop of [random.shuffle]:
    [for i in reversed(range(1, len(x))): j = randbelow(i + 1); swap]. *)
Fixpoint shuffle_from {A} (i : nat) (l : list A) : Comp (list A) :=
  match i with
  | O => ret l
  | S i' =>
      fun g =>
        let (x, g') := next_raw g in
        shuffle_from i' (swap i (randbelow (S i) x) l) g'
  end.

Definition shuffle {A} (l : list A) : Comp (list A) :=
  shuffle_from (Nat.pred (List.length l)) l.

End Py.

Declare Scope py_scope.
Delimit Scope py_scope with py.
Notation "x <- c ;; k" := (Py.bind c (fun x => k))
  (at level 61, c at next level, right associativity) : py_scope.
Notation "' p <- c ;; k" := (Py.bind c (fun p => k))
  (at level 61, p pattern, c at next level, right associativity) : py_scope.

Local Open Scope string_scope.
Local Open Scope list_scope.
Local Open Scope Z_scope.
Local Open Scope py_scope.

(* ===================================================================== *)
(** ** The game services the package calls                                *)
(* ===================================================================== *)

Module Game.

(** What the package reads of a [SimInfo]. [has_instance] is the answer of
    [CommonSimUtils.get_sim_instance]; [is_instanced] that of
    [sim_info.is_instanced(allow_hidden_flags=False)]. *)
Record SimInfo : Type := {
  sim_id : Z;
  is_human : bool;
  is_baby : bool;
  is_instanced : bool;
  is_npc : bool;
  is_played : bool;
  has_instance : bool;
  trait_names : list string
}.

(** What surrounds the package at one moment of the session: the game
    services and the interpreter. [weather] is the name of the current
    [CommonWeatherType], absent when there is no weather service;
    [int_max_str_digits] is [sys.get_int_max_str_digits()], 0 in an
    interpreter without that limit. *)
Record Env : Type := {
  all_sims : list SimInfo;
  weather : option string;
  day_of_week : Z;
  hour : Z;
  minute : Z;
  int_max_str_digits : nat
}.

(** [CommonSimUtils.get_sim_info(sim_id)] *)
Definition get_sim_info (env : Env) (sid : Z) : option SimInfo :=
  find (fun si => sim_id si =? sid) (all_sims env).

(** [CommonSimUtils.get_sim_instance(sim_info)]: whether a live sim object
    stands behind the info record. *)
Definition get_sim_instance (si : SimInfo) : option SimInfo :=
  if has_instance si then Some si else None.

(** What [json.load] returns, by the shape of the document: [None] for
    [null], a dict for an object, and any other value (a list, a string, a
    number, a flag). *)
Inductive Document (Data : Type) : Type :=
| Null
| Object (d : Data)
| Other.
Arguments Null {Data}.
Arguments Object {Data}.
Arguments Other {Data}.

(** The files [NLConfig.load] can see. [os.path] is the platform's;
    [json_load p] is [open(p)] followed by [json.load], which raise when
    the path cannot be opened or does not hold JSON. *)
Record FileSystem (Data : Type) : Type := {
  script_file : option string;
  dirname : string -> string;
  join : list string -> string;
  exists_ : string -> bool;
  json_load : string -> Py.Res (Document Data)
}.
Arguments script_file {Data}.
Arguments dirname {Data}.
Arguments join {Data}.
Arguments exists_ {Data}.
Arguments json_load {Data}.

Inductive FsEvent : Type :=
| Probed (path : string)
| Opened (path : string).

End Game.

(* ===================================================================== *)
(** ** util.py                                                            *)
(* ===================================================================== *)

Module Util.
Import Py Game.

Definition MOD_FOLDER_NAME := "NeighborhoodLife".
Definition RESOURCES_DIR := "neighborhood_life_resources".
Definition CONFIG_FILENAME := "config.json".

Definition Weights : Type := dict string float.

(** One entry of [time_blocks]:
    [{"start": "HH:MM", "duration_min": [lo, hi], "actions": {...}}]. *)
Record Template : Type := {
  tpl_start : string;
  tpl_duration_min : list Z;
  tpl_actions : Weights
}.

Record NLConfig : Type := {
  participant_count : Z;
  time_blocks : list Template;
  trait_bias : dict string Weights;
  weather_bias : dict string Weights;
  weekend_bias : Weights;
  news_enabled : bool;
  debug_logging : bool
}.

(** The object a config file holds, as [load] reads it: any of the seven
    keys may be missing, and a value that is there has the type the
    package takes it to have (a count, a list of templates, tables of
    floats, two flags). *)
Record ConfigData : Type := {
  d_participant_count : option Z;
  d_time_blocks : option (list Template);
  d_trait_bias : option (dict string Weights);
  d_weather_bias : option (dict string Weights);
  d_weekend_bias : option Weights;
  d_news_enabled : option bool;
  d_debug_logging : option bool
}.

(** The fallback literal of [load]. *)
Definition default_data : ConfigData := {|
  d_participant_count := Some 8;
  d_time_blocks := Some [];
  d_trait_bias := Some [];
  d_weather_bias := Some [];
  d_weekend_bias := Some [];
  d_news_enabled := Some true;
  d_debug_logging := Some true
|}.

Definition get_or {A} (o : option A) (dflt : A) : A :=
  match o with Some a => a | None => dflt end.

(** [ensure_singleton(old, new)] *)
Definition ensure_singleton {A} (old : option A) (new : A) : A :=
  match old with
  | Some o => o
  | None => new
  end.

(** The class attribute [NLConfig._cached]. An instance is an allocated
    object: its identity is [oid], its fields are [obj]. *)
Record ConfigObj : Type := {
  oid : nat;
  obj : NLConfig
}.

Record ClassState : Type := {
  _cached : option ConfigObj;
  next_oid : nat
}.

Definition candidates (fs : FileSystem ConfigData) : list string :=
  let base_dir := script_file fs in
  let base_dir := option_map (dirname fs) base_dir in
  (match base_dir with
   | Some b =>
       if String.eqb b "" then []
       else [join fs [dirname fs b; RESOURCES_DIR; CONFIG_FILENAME]]
   | None => []
   end)
  ++ [join fs [RESOURCES_DIR; CONFIG_FILENAME]].

(** [data = None;
     for p in candidates: if exists(p): data = json.load(open(p)); break],
    with the file-system accesses it makes. *)
Fixpoint find_data (fs : FileSystem ConfigData) (ps : list string)
  : list FsEvent * Res (Document ConfigData) :=
  match ps with
  | [] => ([], ok Null)
  | p :: ps' =>
      if exists_ fs p then ([Probed p; Opened p], json_load fs p)
      else
        let (evs, r) := find_data fs ps' in
        (Probed p :: evs, r)
  end.

Definition make_config (data : ConfigData) : NLConfig := {|
  participant_count := get_or (d_participant_count data) 8;
  time_blocks := get_or (d_time_blocks data) [];
  trait_bias := get_or (d_trait_bias data) [];
  weather_bias := get_or (d_weather_bias data) [];
  weekend_bias := get_or (d_weekend_bias data) [];
  news_enabled := get_or (d_news_enabled data) true;
  debug_logging := get_or (d_debug_logging data) true
|}.

(** Lines 66 to 86: [data is None], whether no candidate exists or the
    file holds [null], selects the fallback literal; [data.get] raises on a
    document that is not an object. *)
Definition convert (data : Document ConfigData) : Res NLConfig :=
  match data with
  | Null => ok (make_config default_data)
  | Object d => ok (make_config d)
  | Other => raise AttributeError
  end.

(** [NLConfig.load]: the instance returned, the class state afterwards and
    the file-system accesses made. An exception leaves the cache as it
    was. *)
Definition load (fs : FileSystem ConfigData) (cls : ClassState)
  : list FsEvent * Res (ConfigObj * ClassState) :=
  match _cached cls with
  | Some c => ([], ok (c, cls))
  | None =>
      let (evs, r) := find_data fs (candidates fs) in
      (evs,
       match r with
       | inl e => raise e
       | inr data =>
           match convert data with
           | inl e => raise e
           | inr fields =>
               let cfg := {| oid := next_oid cls; obj := fields |} in
               ok (cfg,
                   {| _cached := Some cfg; next_oid := S (next_oid cls) |})
           end
       end)
  end.

(** [is_weekend]: Saturday is 6 and Sunday 7. *)
Definition is_weekend (env : Env) : bool :=
  (day_of_week env =? 6) || (day_of_week env =? 7).

(** [hh, mm = hhmm.split(":"); return int(hh) * 60 + int(mm)] *)
Definition time_str_to_minutes (env : Env) (hhmm : string) : Res Z :=
  match split ":"%char hhmm with
  | [hh; mm] =>
      match int_of_str (int_max_str_digits env) hh with
      | inl e => raise e
      | inr h =>
          match int_of_str (int_max_str_digits env) mm with
          | inl e => raise e
          | inr m => ok (h * 60 + m)
          end
      end
  | _ => raise ValueError
  end.

Definition get_today_minutes (env : Env) : Z :=
  hour env * 60 + minute env.

(** The filter of [select_participant_sims]. *)
Definition eligible (si : SimInfo) : bool :=
  (is_human si && negb (is_baby si) && negb (is_instanced si))
  && (is_npc si || negb (is_played si)).

(** [seq[:n]] for [n >= 0]. *)
Definition take {A} (n : Z) (l : list A) : list A := firstn (Z.to_nat n) l.

Definition select_participant_sims (env : Env) (count : Z)
  : Comp (list SimInfo) :=
  let all_candidates := filter eligible (all_sims env) in
  all_candidates <- shuffle all_candidates ;;
  let picked := take (Z.max 1 count) all_candidates in
  ret picked.

(** [a > b], [a >= b] and Python's two-argument [max], which keeps its
    first argument unless the second is strictly greater. *)
Definition fgt (a b : float) : bool := flt b a.
Definition fge (a b : float) : bool := fle b a.
Definition fmax (a b : float) : float := if fgt b a then b else a.

(** [sum(vs)]: from the integer 0, the floats added one by one from left
    to right (the plain loop of CPython before 3.12). *)
Definition fsum (vs : list float) : float :=
  fold_left fadd vs (float_of_Z 0).

(** [[(k, max(v, 0.0)) for k, v in weights.items() if v > 0.0]] *)
Definition positive_items (weights : Weights) : list (string * float) :=
  map (fun kv => (fst kv, fmax (snd kv) fzero))
      (filter (fun kv => fgt (snd kv) fzero) weights).

(** The accumulation loop: the first key whose running sum reaches [r]. *)
Fixpoint walk (r upto : float) (items : list (string * float))
  : option string :=
  match items with
  | [] => None
  | (k, v) :: rest =>
      if fge (fadd upto v) r then Some k else walk r (fadd upto v) rest
  end.

Definition weighted_choice (weights : Weights) : Comp string :=
  let items := positive_items weights in
  match items with
  | [] => choice (keys weights)
  | first :: _ =>
      let total := fsum (values items) in
      r <- uniform (float_of_Z 0) total ;;
      match walk r fzero items with
      | Some k => ret k
      | None => ret (fst (last items first))
      end
  end.

End Util.

(* ===================================================================== *)
(** ** schedules.py                                                       *)
(* ===================================================================== *)

Module Schedules.
Import Py Game Util.

Record TimeBlock : Type := {
  start_min : Z;
  duration_min : Z;
  action : string;
  venue_tag : option string
}.

Record DailySchedule : Type := {
  sim_id : Z;
  blocks : list TimeBlock
}.

(** [seq[i]] for a list read from the config. *)
Definition index {A} (l : list A) (i : nat) : Res A :=
  match nth_error l i with
  | Some a => ok a
  | None => raise IndexError
  end.

(** [ScheduleBuilder._derive_venue_tag] *)
Definition _derive_venue_tag (act : string) : option string :=
  if String.eqb act "CAFE_IDLE" then Some "cafe"
  else if String.eqb act "LIB_IDLE" then Some "library"
  else if String.eqb act "GYM_IDLE" then Some "gym"
  else if String.eqb act "DINING_IDLE" then Some "dining"
  else if String.eqb act "PARK_WALK" then Some "park"
  else if String.eqb act "NEIGHBOR_VISIT" then Some "residential"
  else if String.eqb act "HOME_IDLE" then Some "residential"
  else None.

(** [for act, delta in adds.items():
       weights[act] = weights.get(act, 0.0) + delta] *)
Definition add_deltas (adds weights : Weights) : Weights :=
  fold_left
    (fun w kv =>
       dict_set String.eqb (fst kv)
         (fadd (get_or (dict_get String.eqb (fst kv) w) fzero) (snd kv)) w)
    adds weights.

Definition mem_str (s : string) (l : list string) : bool :=
  existsb (String.eqb s) l.

(** [ScheduleBuilder._apply_trait_bias] *)
Definition _apply_trait_bias (cfg : NLConfig) (sim_info : SimInfo)
    (weights : Weights) : Weights :=
  let names := trait_names sim_info in
  fold_left
    (fun w entry =>
       if mem_str (fst entry) names then add_deltas (snd entry) w else w)
    (trait_bias cfg) weights.

(** [ScheduleBuilder._apply_weather_bias]: only string keys exist in the
    bias table, so the [None] key finds nothing. *)
Definition _apply_weather_bias (cfg : NLConfig) (weather_type : option string)
    (weights : Weights) : Weights :=
  match weather_type with
  | None => weights
  | Some name =>
      let key :=
        if contains "RAIN" name then Some "Rain"
        else if contains "SNOW" name then Some "Snow"
        else None in
      let adds :=
        match key with
        | Some k => dict_get String.eqb k (weather_bias cfg)
        | None => None
        end in
      match adds with
      | None | Some [] => weights
      | Some a => add_deltas a weights
      end
  end.

(** [ScheduleBuilder._apply_weekend_bias] *)
Definition _apply_weekend_bias (cfg : NLConfig) (weights : Weights) : Weights :=
  add_deltas (weekend_bias cfg) weights.

(** [ScheduleBuilder._get_weather_type] *)
Definition _get_weather_type (env : Env) : option string := weather env.

(** The weight table handed to [weighted_choice] for one template. *)
Definition biased_weights (env : Env) (cfg : NLConfig) (wtype : option string)
    (sim_info : SimInfo) (block : Template) : Weights :=
  let action_weights := tpl_actions block in
  let action_weights := _apply_trait_bias cfg sim_info action_weights in
  let action_weights := _apply_weather_bias cfg wtype action_weights in
  if is_weekend env then _apply_weekend_bias cfg action_weights
  else action_weights.

(** The body of the inner loop of [build_for_sims]. *)
Definition build_block (env : Env) (cfg : NLConfig) (wtype : option string)
    (sim_info : SimInfo) (block : Template) : Comp TimeBlock :=
  start <- lift (time_str_to_minutes env (tpl_start block)) ;;
  lo <- lift (index (tpl_duration_min block) 0) ;;
  hi <- lift (index (tpl_duration_min block) 1) ;;
  dur <- randint lo hi ;;
  let action_weights := biased_weights env cfg wtype sim_info block in
  act <- weighted_choice action_weights ;;
  let tag := _derive_venue_tag act in
  ret {| start_min := start; duration_min := dur;
         action := act; venue_tag := tag |}.

Definition Schedule_map : Type := dict Z DailySchedule.

(** The outer loop of [build_for_sims], threading the [schedules] dict. *)
Fixpoint build_loop (env : Env) (cfg : NLConfig) (wtype : option string)
    (sim_infos : list SimInfo) (schedules : Schedule_map)
  : Comp Schedule_map :=
  match sim_infos with
  | [] => ret schedules
  | sim_info :: rest =>
      let sid := Game.sim_id sim_info in
      blocks <- for_each (build_block env cfg wtype sim_info) (time_blocks cfg) ;;
      build_loop env cfg wtype rest
        (dict_set Z.eqb sid {| sim_id := sid; blocks := blocks |} schedules)
  end.

(** [ScheduleBuilder.build_for_sims] *)
Definition build_for_sims (env : Env) (cfg : NLConfig)
    (sim_infos : list SimInfo) : Comp Schedule_map :=
  let wtype := _get_weather_type env in
  build_loop env cfg wtype sim_infos [].

End Schedules.

(* ===================================================================== *)
(** ** news.py and actions.py                                             *)
(* ===================================================================== *)

Module Collab.
Import Py Game Util Schedules.

Inductive Phase : Type := Start | End.

Inductive Move : Type :=
| WalkOrJog (jog : bool)
| Idle
| NeighborVisit.

(** What the collaborators make visible: a notification shown for a sim and
    a block, or a movement routine entered for a sim ([_do_walk_or_jog],
    [_do_idle], [_do_neighbor_visit]). The text of the notification (sim
    name and action title) and the route points are not modelled. *)
Inductive Event : Type :=
| Notified (ph : Phase) (sid : Z) (b : TimeBlock)
| Moved (sid : Z) (m : Move).

(** [NewsCenter.post_start] *)
Definition post_start (cfg : NLConfig) (sim_info : SimInfo) (block : TimeBlock)
  : list Event :=
  if negb (news_enabled cfg) then []
  else [Notified Start (Game.sim_id sim_info) block].

(** [NewsCenter.post_end] *)
Definition post_end (cfg : NLConfig) (sim_info : SimInfo) (block : TimeBlock)
  : list Event :=
  if negb (news_enabled cfg) then []
  else [Notified End (Game.sim_id sim_info) block].

(** [ActionExecutor.execute]: a sim without an instance and an unknown
    action are logged and skipped. *)
Definition execute (sim_info : SimInfo) (block : TimeBlock) : list Event :=
  match get_sim_instance sim_info with
  | None => []
  | Some sim =>
      let act := action block in
      if mem_str act ["JOG"; "WALK"; "PARK_WALK"] then
        [Moved (Game.sim_id sim) (WalkOrJog (String.eqb act "JOG"))]
      else if mem_str act ["CAFE_IDLE"; "LIB_IDLE"; "DINING_IDLE";
                           "GYM_IDLE"; "HOME_IDLE"] then
        [Moved (Game.sim_id sim) Idle]
      else if String.eqb act "NEIGHBOR_VISIT" then
        [Moved (Game.sim_id sim) NeighborVisit]
      else []
  end.

(** [ActionExecutor.cleanup] *)
Definition cleanup (sim_info : SimInfo) (block : TimeBlock) : list Event := [].

End Collab.

(* ===================================================================== *)
(** ** The alarm facility of the host                                     *)
(* ===================================================================== *)

Module Alarms.
Import Schedules Collab.

(** One registered alarm: the delay in minutes, the callback it calls
    ([Start] for [_on_block_start], [End] for [_on_block_end]), whether it
    repeats, and its payload. *)
Record Alarm : Type := {
  delay : Z;
  callback : Phase;
  repeating : bool;
  data : Z * TimeBlock
}.

(** [CommonAlarmUtils]: handles are issued in sequence; [live] holds the
    alarms that can still fire, [cancels] the handles passed to
    [cancel_alarm], oldest first. *)
Record Host : Type := {
  next_handle : nat;
  live : list (nat * Alarm);
  cancels : list nat
}.

Definition set_alarm (h : Host) (a : Alarm) : nat * Host :=
  (next_handle h,
   {| next_handle := S (next_handle h);
      live := live h ++ [(next_handle h, a)];
      cancels := cancels h |}).

(** Cancelling a handle that is not live changes nothing but the record of
    the call. *)
Definition cancel_alarm (h : Host) (handle : nat) : Host :=
  {| next_handle := next_handle h;
     live := filter (fun e => negb (Nat.eqb (fst e) handle)) (live h);
     cancels := cancels h ++ [handle] |}.

Definition is_live (h : Host) (handle : nat) : Prop :=
  In handle (map fst (live h)).

End Alarms.

(* ===================================================================== *)
(** ** director.py                                                        *)
(* ===================================================================== *)

Module Director.
Import Py Game Util Schedules Collab Alarms.

(** [NeighborhoodDirector]; [_news] and [_executor] hold nothing but [cfg]. *)
Record NeighborhoodDirector : Type := {
  cfg : NLConfig;
  _schedules : Schedule_map;
  _alarms : list nat
}.

(** [NeighborhoodDirector.__init__] *)
Definition init (c : NLConfig) : NeighborhoodDirector :=
  {| cfg := c; _schedules := []; _alarms := [] |}.

(** The two [set_alarm] calls made for one block. *)
Definition arm_block (now_min : Z) (sid : Z) (block : TimeBlock)
    (st : Host * list nat) : Host * list nat :=
  let (host, alarms) := st in
  let delta := Z.max 0 (start_min block - now_min) in
  let (handle, host) :=
    set_alarm host {| delay := delta; callback := Start;
                      repeating := false; data := (sid, block) |} in
  let alarms := alarms ++ [handle] in
  let (end_handle, host) :=
    set_alarm host {| delay := delta + duration_min block; callback := End;
                      repeating := false; data := (sid, block) |} in
  let alarms := alarms ++ [end_handle] in
  (host, alarms).

Definition arm_schedule (now_min : Z) (st : Host * list nat)
    (ds : DailySchedule) : Host * list nat :=
  fold_left (fun st block => arm_block now_min (Schedules.sim_id ds) block st)
            (blocks ds) st.

(** [NeighborhoodDirector._schedule_alarms] *)
Definition _schedule_alarms (env : Env) (host : Host)
    (d : NeighborhoodDirector) : Host * NeighborhoodDirector :=
  let now_min := get_today_minutes env in
  let (host', alarms') :=
    fold_left (arm_schedule now_min) (values (_schedules d))
              (host, _alarms d) in
  (host', {| cfg := cfg d; _schedules := _schedules d; _alarms := alarms' |}).

(** [NeighborhoodDirector.start_for_today]: an exception of the selection
    or of the build leaves the director and the host as they were. *)
Definition start_for_today (env : Env) (host : Host)
    (d : NeighborhoodDirector)
  : Comp (Host * NeighborhoodDirector) :=
  sim_infos <- select_participant_sims env (participant_count (cfg d)) ;;
  schedules <- build_for_sims env (cfg d) sim_infos ;;
  let d := {| cfg := cfg d; _schedules := schedules; _alarms := _alarms d |} in
  ret (_schedule_alarms env host d).

(** [NeighborhoodDirector.stop_all] *)
Definition stop_all (host : Host) (d : NeighborhoodDirector)
  : Host * NeighborhoodDirector :=
  let host' := fold_left cancel_alarm (_alarms d) host in
  (host', {| cfg := cfg d; _schedules := []; _alarms := [] |}).

(** [NeighborhoodDirector._on_block_start]: the events the call adds. *)
Definition _on_block_start (env : Env) (d : NeighborhoodDirector)
    (payload : Z * TimeBlock) : list Event :=
  let (sim_id, block) := payload in
  match get_sim_info env sim_id with
  | None => []
  | Some sim_info =>
      post_start (cfg d) sim_info block ++ execute sim_info block
  end.

(** [NeighborhoodDirector._on_block_end] *)
Definition _on_block_end (env : Env) (d : NeighborhoodDirector)
    (payload : Z * TimeBlock) : list Event :=
  let (sim_id, block) := payload in
  match get_sim_info env sim_id with
  | None => []
  | Some sim_info =>
      post_end (cfg d) sim_info block ++ cleanup sim_info block
  end.

End Director.

(* ===================================================================== *)
(** ** bootstrap.py                                                       *)
(* ===================================================================== *)

Module Bootstrap.
Import Py Game Util Schedules Collab Alarms Director.

(** The module state: [_DIRECTOR_SINGLETON], the config class and the
    host's alarms. *)
Record State : Type := {
  _DIRECTOR_SINGLETON : option NeighborhoodDirector;
  config_class : ClassState;
  host : Host
}.

Definition initial : State :=
  {| _DIRECTOR_SINGLETON := None;
     config_class := {| _cached := None; next_oid := O |};
     host := {| next_handle := O; live := []; cancels := [] |} |}.

(** [_on_zone_late_load]: the state after a call that completes; a call
    that raises yields the exception alone. *)
Definition _on_zone_late_load (fs : FileSystem ConfigData) (env : Env)
    (st : State) : Comp State :=
  '(c, cls) <- lift (snd (load fs (config_class st))) ;;
  let director := init (obj c) in
  let singleton := ensure_singleton (_DIRECTOR_SINGLETON st) director in
  '(host', d') <- start_for_today env (host st) singleton ;;
  ret {| _DIRECTOR_SINGLETON := Some d'; config_class := cls; host := host' |}.

(** [_on_zone_unload] *)
Definition _on_zone_unload (st : State) : State :=
  match _DIRECTOR_SINGLETON st with
  | Some d =>
      let (host', _) := stop_all (host st) d in
      {| _DIRECTOR_SINGLETON := None;
         config_class := config_class st;
         host := host' |}
  | None => st
  end.

End Bootstrap.

(* ===================================================================== *)
(** ** actions.py, with the routes it issues                              *)
(* ===================================================================== *)

Module Actions.
Import Py Game Util Schedules.

(** A [sims4.math.Vector3], by the floats its attributes [x], [y] and [z]
    read as. *)
Record Vector3 : Type := {
  vx : float;
  vy : float;
  vz : float
}.

(** What the executor takes from the game: the position of the sim object
    behind a sim info ([CommonSimUtils.get_sim_instance], then
    [sim.position]), absent for a sim without instance,
    [CommonLocationUtils.is_position_on_active_lot], and the vector that
    [Vector3(x, y, z)] makes of three floats. *)
Record Zone : Type := {
  instance_position : SimInfo -> option Vector3;
  is_position_on_active_lot : Vector3 -> bool;
  new_vector : float -> float -> float -> Vector3
}.

(** A call of [CommonSimMovementUtils.route_sim_to_position]. *)
Record Route : Type := {
  routed_sim : Z;
  target : Vector3
}.

(** [ActionExecutor._random_point_nearby]: the loop over [range(tries)]. *)
Fixpoint random_point_loop (zone : Zone) (pos : Vector3) (radius : float)
    (tries : nat) : Comp (option Vector3) :=
  match tries with
  | O => ret None
  | S tries' =>
      dx <- uniform (fneg radius) radius ;;
      dz <- uniform (fneg radius) radius ;;
      let candidate :=
        new_vector zone (fadd (vx pos) dx) (vy pos) (fadd (vz pos) dz) in
      if is_position_on_active_lot zone candidate then ret (Some candidate)
      else random_point_loop zone pos radius tries'
  end.

Definition _random_point_nearby (zone : Zone) (pos : Vector3) (radius : float)
    (tries : Z) : Comp (option Vector3) :=
  random_point_loop zone pos radius (Z.to_nat tries).

(** The [for _ in range(2)] of a jog: each further point is drawn around
    the first target. *)
Fixpoint jog_legs (zone : Zone) (sid : Z) (around : Vector3) (legs : nat)
  : Comp (list Route) :=
  match legs with
  | O => ret []
  | S legs' =>
      next_pos <- _random_point_nearby zone around (float_of_Z 10) 4 ;;
      rest <- jog_legs zone sid around legs' ;;
      match next_pos with
      | Some p => ret ({| routed_sim := sid; target := p |} :: rest)
      | None => ret rest
      end
  end.

(** [ActionExecutor._do_walk_or_jog] *)
Definition _do_walk_or_jog (zone : Zone) (sid : Z) (start : Vector3)
    (jog : bool) : Comp (list Route) :=
  found <- _random_point_nearby zone start (float_of_Z 12) 6 ;;
  match found with
  | None => ret []
  | Some tgt =>
      let first := {| routed_sim := sid; target := tgt |} in
      if jog then
        legs <- jog_legs zone sid tgt 2 ;;
        ret (first :: legs)
      else ret [first]
  end.

(** [ActionExecutor._do_idle] *)
Definition _do_idle (zone : Zone) (sid : Z) (start : Vector3)
  : Comp (list Route) :=
  found <- _random_point_nearby zone start (float_of_Z 8) 6 ;;
  match found with
  | None => ret []
  | Some tgt => ret [ {| routed_sim := sid; target := tgt |} ]
  end.

(** [ActionExecutor._do_neighbor_visit] *)
Definition _do_neighbor_visit (zone : Zone) (sid : Z) (start : Vector3)
  : Comp (list Route) :=
  _do_idle zone sid start.

(** [ActionExecutor.execute]: the routes issued, in order. *)
Definition execute (zone : Zone) (sim_info : SimInfo) (block : TimeBlock)
  : Comp (list Route) :=
  match instance_position zone sim_info with
  | None => ret []
  | Some start =>
      let sid := Game.sim_id sim_info in
      let act := action block in
      if mem_str act ["JOG"; "WALK"; "PARK_WALK"] then
        _do_walk_or_jog zone sid start (String.eqb act "JOG")
      else if mem_str act ["CAFE_IDLE"; "LIB_IDLE"; "DINING_IDLE";
                           "GYM_IDLE"; "HOME_IDLE"] then
        _do_idle zone sid start
      else if String.eqb act "NEIGHBOR_VISIT" then
        _do_neighbor_visit zone sid start
      else ret []
  end.

End Actions.

(* ===================================================================== *)
(** ** ts4script_tool_gui.py: ignore lists, packing, tree signature       *)
(* ===================================================================== *)

Module Tool.

(** What the tool takes from the platform: [fnmatch.fnmatch] (whose case
    rule is the platform's), whether text files are written with CRLF line
    ends, [str] of an integer and the hex digest of SHA-256. *)
Record Platform : Type := {
  fnmatch : string -> string -> bool;
  crlf : bool;
  str_int : Z -> string;
  sha256_hex : string -> string
}.

Definition DEFAULT_IGNORE : list string :=
  [ "__pycache__/"; "*.pyc"; "*.pyo"; "*.log"; ".git/"; ".idea/";
    ".vscode/"; "*.swp"; ".DS_Store"; "Thumbs.db" ].

(** *** Strings, with code points below 256 *)

Definition LF : ascii := ascii_of_nat 10.
Definition CR : ascii := ascii_of_nat 13.
Definition BACKSLASH : ascii := ascii_of_nat 92.

(** The white space [str.strip] removes. *)
Definition is_whitespace (c : ascii) : bool :=
  let n := nat_of_ascii c in
  ((9 <=? n)%nat && (n <=? 13)%nat) || ((28 <=? n)%nat && (n <=? 32)%nat)
  || (n =? 133)%nat || (n =? 160)%nat.

(** The line boundaries of [str.splitlines]. *)
Definition is_line_boundary (c : ascii) : bool :=
  let n := nat_of_ascii c in
  ((10 <=? n)%nat && (n <=? 13)%nat) || ((28 <=? n)%nat && (n <=? 30)%nat)
  || (n =? 133)%nat.

Fixpoint lstrip (s : string) : string :=
  match s with
  | String c r => if is_whitespace c then lstrip r else s
  | EmptyString => EmptyString
  end.

(** [s.strip()] *)
Definition strip (s : string) : string :=
  Py.rev_string EmptyString
    (lstrip (Py.rev_string EmptyString (lstrip s))).

(** [s.splitlines()]: a CR LF pair is one boundary, and a boundary at the
    very end opens no further line. *)
Fixpoint splitlines (s : string) : list string :=
  match s with
  | EmptyString => []
  | String c r =>
      if is_line_boundary c then
        match r with
        | String c2 r2 =>
            if Ascii.eqb c CR && Ascii.eqb c2 LF
            then EmptyString :: splitlines r2
            else EmptyString :: splitlines r
        | EmptyString => [EmptyString]
        end
      else
        match splitlines r with
        | hd :: tl => String c hd :: tl
        | [] => [String c EmptyString]
        end
  end.

(** [s.replace(old, new)] for single characters. *)
Fixpoint replace_char (old new : ascii) (s : string) : string :=
  match s with
  | EmptyString => EmptyString
  | String c r =>
      String (if Ascii.eqb c old then new else c) (replace_char old new r)
  end.

Definition endswith_slash (s : string) : bool :=
  match Py.rev_string EmptyString s with
  | String c _ => Ascii.eqb c "/"%char
  | EmptyString => false
  end.

Definition startswith_hash (s : string) : bool :=
  match s with
  | String c _ => Ascii.eqb c "#"%char
  | EmptyString => false
  end.

(** *** Text files *)

(** Writing text turns each LF into the platform's line end. *)
Fixpoint encode_newlines (pf : Platform) (s : string) : string :=
  match s with
  | EmptyString => EmptyString
  | String c r =>
      if Ascii.eqb c LF && crlf pf
      then String CR (String LF (encode_newlines pf r))
      else String c (encode_newlines pf r)
  end.

(** Reading text turns CR LF and a lone CR into LF. *)
Fixpoint decode_newlines (s : string) : string :=
  match s with
  | EmptyString => EmptyString
  | String c r =>
      if Ascii.eqb c CR then
        match r with
        | String c2 r2 =>
            if Ascii.eqb c2 LF then String LF (decode_newlines r2)
            else String LF (decode_newlines r)
        | EmptyString => String LF EmptyString
        end
      else String c (decode_newlines r)
  end.

(** The file [.ts4ignore] of a workspace: absent, or its stored text. *)
Definition IgnoreFile : Type := option string.

(** [read_ignore_file] *)
Definition read_ignore_file (f : IgnoreFile) : list string :=
  match f with
  | Some stored =>
      let lines := map strip (splitlines (decode_newlines stored)) in
      filter (fun ln => negb (String.eqb ln "") && negb (startswith_hash ln))
             lines
  | None => DEFAULT_IGNORE
  end.

(** [write_ignore_file] *)
Definition write_ignore_file (pf : Platform) (patterns : list string)
  : IgnoreFile :=
  let text :=
    match patterns with
    | [] => ""
    | _ => String.append
             (String.concat (String LF EmptyString) patterns)
             (String LF EmptyString)
    end in
  Some (encode_newlines pf text).

(** The patterns [_ignore_save] takes from the text box. *)
Definition save_patterns (box : string) : list string :=
  map strip
      (filter (fun ln => negb (String.eqb (strip ln) "")) (splitlines box)).

(** *** Ignoring *)

(** [should_ignore] *)
Fixpoint ignore_loop (pf : Platform) (rp : string) (patterns : list string)
  : bool :=
  match patterns with
  | [] => false
  | pat :: rest =>
      if endswith_slash pat && String.prefix pat rp then true
      else if fnmatch pf rp pat then true
      else ignore_loop pf rp rest
  end.

Definition should_ignore (pf : Platform) (rel_path : string)
    (patterns : list string) : bool :=
  let rp := replace_char BACKSLASH "/"%char rel_path in
  ignore_loop pf rp patterns.

(** *** Walking a tree *)

(** A directory tree as [os.walk] sees it, each node under its name. A
    file carries what [stat] gives, size and modification time, or nothing
    when it has vanished since the directory was listed. *)
#[local] Set Warnings "-register-all".
Inductive Node : Type :=
| File (name : string) (meta : option (Z * Z))
| Dir (name : string) (entries : list Node).

Inductive ToolError : Type :=
| FileNotFoundError
| RuntimeError.

(** [(root_p / name).relative_to(top).as_posix()] *)
Definition rel_of (prefix name : string) : string :=
  if String.eqb prefix "" then name
  else String.append prefix (String "/"%char name).

(** The files of one directory that are not ignored, as the file loops of
    [zip_dir] and of [compute_tree_signature], which are the same text,
    select them. *)
Fixpoint kept_files (pf : Platform) (patterns : list string)
    (prefix : string) (entries : list Node)
  : list (string * option (Z * Z)) :=
  match entries with
  | [] => []
  | File name meta :: rest =>
      let rel := rel_of prefix name in
      if should_ignore pf rel patterns
      then kept_files pf patterns prefix rest
      else (rel, meta) :: kept_files pf patterns prefix rest
  | Dir _ _ :: rest => kept_files pf patterns prefix rest
  end.

(** The walk of [os.walk] from the directory [n], whose relative path is
    [prefix], with the pruning both functions do: the kept files of the
    directory, then the walk of each kept subdirectory. Walking something
    that is not a directory yields nothing. *)
Fixpoint walk (pf : Platform) (patterns : list string) (prefix : string)
    (n : Node) : list (string * option (Z * Z)) :=
  match n with
  | File _ _ => []
  | Dir _ entries =>
      kept_files pf patterns prefix entries
      ++ flat_map
           (fun child =>
              match child with
              | File _ _ => []
              | Dir name _ =>
                  let rel := rel_of prefix name in
                  if should_ignore pf (String.append rel "/") patterns
                  then []
                  else walk pf patterns rel child
              end)
           entries
  end.

(** [zip_dir]: the archive names written, in order; a kept file that has
    vanished makes [zf.write] raise. The copy of an existing archive to a
    backup file, made before the archive is rewritten, has no part in what
    is packed and is left out. *)
Fixpoint write_all (files : list (string * option (Z * Z)))
  : ToolError + list string :=
  match files with
  | [] => inr []
  | (rel, Some _) :: rest =>
      match write_all rest with
      | inr names => inr (rel :: names)
      | inl e => inl e
      end
  | (_, None) :: _ => inl FileNotFoundError
  end.

Definition zip_dir (pf : Platform) (src_dir : Node)
    (patterns : list string) : ToolError + list string :=
  write_all (walk pf patterns "" src_dir).

(** [compute_tree_signature]: the running count, size and hashed text. *)
Fixpoint sign_all (pf : Platform) (files : list (string * option (Z * Z)))
    (acc : Z * Z * string) : Z * Z * string :=
  match files with
  | [] => acc
  | (rel, Some (size, mtime_ns)) :: rest =>
      let '(total_files, total_size, fed) := acc in
      sign_all pf rest
        (total_files + 1, total_size + size,
         String.append fed
           (String.append rel
              (String.append (str_int pf mtime_ns) (str_int pf size))))
  | (_, None) :: rest => sign_all pf rest acc
  end.

Definition compute_tree_signature (pf : Platform) (path : Node)
    (patterns : list string) : Z * Z * string :=
  let '(total_files, total_size, fed) :=
    sign_all pf (walk pf patterns "" path) (0, 0, "") in
  (total_files, total_size, sha256_hex pf fed).

End Tool.

(* ===================================================================== *)
(** * Vocabulary of the statements                                        *)
(* ===================================================================== *)

Import Py Game Util Schedules Collab Alarms Director.

(** The entries of a table whose weight is strictly positive, in the order
    of the table. A weight that is nan is not among them. *)
Definition positives (weights : Weights) : list (string * float) :=
  filter (fun kv => SFltb (S754_zero false) (snd kv)) weights.

(** The sum of the weights of [items], each addition rounded, from the
    left. *)
Definition total_weight (items : list (string * float)) : float :=
  fold_left (SFadd 53 1024) (map snd items) (S754_zero false).

(** The float of [0.0, 1.0) that [random()] makes of a raw number: its 53
    low bits, scaled by 2^-53. *)
Definition unit_float (x : N) : float :=
  binary_normalize 53 1024 (Z.of_N x mod 2 ^ 53) (-53) false.

(** [a + (b - a) * u], each operation rounded. *)
Definition spread (a b u : float) : float :=
  SFadd 53 1024 a (SFmul 53 1024 (SFsub 53 1024 b a) u).

(** The draw [r] of [weighted_choice] on a table, from the random source
    [g]: [uniform(0, total)] on the next raw number. *)
Definition draw (weights : Weights) (g : Rng) : float :=
  spread (S754_zero false) (total_weight (positives weights))
         (unit_float (fst (next_raw g))).

(** The running sum of the loop before it reaches an entry. *)
Definition running (upto : float) (pre : list (string * float)) : float :=
  fold_left (SFadd 53 1024) (map snd pre) upto.

(** [k] is the first key of [items] whose running sum reaches [r]:
    [upto + v >= r] holds at its entry and at no entry before. *)
Definition first_reaching (r : float) (items : list (string * float))
    (k : string) : Prop :=
  exists pre v post,
    items = pre ++ (k, v) :: post
    /\ SFleb r (SFadd 53 1024 (running (S754_zero false) pre) v) = true
    /\ forall pre1 k1 v1 pre2,
         pre = pre1 ++ (k1, v1) :: pre2 ->
         SFleb r (SFadd 53 1024 (running (S754_zero false) pre1) v1) = false.

(** No running sum of [items] reaches [r]. *)
Definition none_reaching (r : float) (items : list (string * float)) : Prop :=
  forall pre1 k1 v1 pre2,
    items = pre1 ++ (k1, v1) :: pre2 ->
    SFleb r (SFadd 53 1024 (running (S754_zero false) pre1) v1) = false.

(** The two alarms [_schedule_alarms] sets for one block, in the order of
    the two [set_alarm] calls. *)
Definition block_alarms (now_min sid : Z) (block : TimeBlock) : list Alarm :=
  let delta := Z.max 0 (start_min block - now_min) in
  [ {| delay := delta; callback := Start;
       repeating := false; data := (sid, block) |};
    {| delay := delta + duration_min block; callback := End;
       repeating := false; data := (sid, block) |} ].

Definition schedule_alarms (now_min : Z) (ds : DailySchedule) : list Alarm :=
  flat_map (block_alarms now_min (Schedules.sim_id ds)) (blocks ds).

Definition expected_alarms (now_min : Z) (scheds : list DailySchedule)
  : list Alarm :=
  flat_map (schedule_alarms now_min) scheds.

(** Consecutive handles from [n] on, paired with the alarms they name. *)
Definition number_from (n : nat) (l : list Alarm) : list (nat * Alarm) :=
  combine (seq n (List.length l)) l.

(** Registering a list of alarms one after the other and recording each
    handle. *)
Definition register (new : list Alarm) (st : Host * list nat)
  : Host * list nat :=
  ({| next_handle := next_handle (fst st) + List.length new;
      live := live (fst st) ++ number_from (next_handle (fst st)) new;
      cancels := cancels (fst st) |},
   snd st ++ seq (next_handle (fst st)) (List.length new)).

(** Whether [stop_all] leaves an entry of the host alone. *)
Definition spared (handles : list nat) (e : nat * Alarm) : bool :=
  negb (existsb (Nat.eqb (fst e)) handles).

(** What a block built from a template is known to satisfy: its start is
    [hh * 60 + mm] for the two integers read from ["HH:MM"], its duration
    lies between the two ends of the template's range, its action is a key
    of the biased weight table and its venue tag is derived from the
    action. *)
Definition block_from (env : Env) (cfg : NLConfig) (sim_info : SimInfo)
    (t : Template) (b : TimeBlock) : Prop :=
  exists hs ms h m lo hi,
    split ":"%char (tpl_start t) = [hs; ms]
    /\ int_of_str (int_max_str_digits env) hs = inr h
    /\ int_of_str (int_max_str_digits env) ms = inr m
    /\ start_min b = h * 60 + m
    /\ nth_error (tpl_duration_min t) 0 = Some lo
    /\ nth_error (tpl_duration_min t) 1 = Some hi
    /\ lo <= duration_min b <= hi
    /\ In (action b)
          (keys (biased_weights env cfg (_get_weather_type env) sim_info t))
    /\ venue_tag b = _derive_venue_tag (action b).

(** A template [build_block] cannot fail on. *)
Definition template_ok (env : Env) (cfg : NLConfig) (sim_info : SimInfo)
    (t : Template) : Prop :=
  (exists start, time_str_to_minutes env (tpl_start t) = inr start)
  /\ (exists lo hi,
        nth_error (tpl_duration_min t) 0 = Some lo
        /\ nth_error (tpl_duration_min t) 1 = Some hi
        /\ lo <= hi)
  /\ biased_weights env cfg (_get_weather_type env) sim_info t <> [].

(** What holds of an entry of the schedule map once the sims [done] have
    been processed. *)
Definition entry_built (env : Env) (cfg : NLConfig) (done : list SimInfo)
    (kv : Z * DailySchedule) : Prop :=
  Schedules.sim_id (snd kv) = fst kv
  /\ exists s,
       In s done /\ Game.sim_id s = fst kv
       /\ Forall2 (block_from env cfg s) (time_blocks cfg) (blocks (snd kv)).

(** What the build guarantees of the start and the duration of a block:
    the start is [hh * 60 + mm] for the integers of the template's
    ["HH:MM"], inside the day when [hh] and [mm] are an hour and a minute;
    the duration lies in the template's range, both ends included, and is
    positive when the lower end is. *)
Definition block_within (env : Env) (t : Template) (b : TimeBlock) : Prop :=
  exists hs ms h m lo hi,
    split ":"%char (tpl_start t) = [hs; ms]
    /\ int_of_str (int_max_str_digits env) hs = inr h
    /\ int_of_str (int_max_str_digits env) ms = inr m
    /\ start_min b = h * 60 + m
    /\ nth_error (tpl_duration_min t) 0 = Some lo
    /\ nth_error (tpl_duration_min t) 1 = Some hi
    /\ lo <= duration_min b <= hi
    /\ (0 <= h < 24 -> 0 <= m < 60 -> 0 <= start_min b < 1440)
    /\ (0 < lo -> 0 < duration_min b).

(** Every handle the director holds was issued by the host. *)
Definition issued (host : Host) (d : NeighborhoodDirector) : Prop :=
  Forall (fun h => (h < next_handle host)%nat) (_alarms d).

(** The live instance behind a participant id, if any: the sim info must
    resolve and the sim must be instanced. *)
Definition live_instance (env : Env) (sid : Z) : option SimInfo :=
  match get_sim_info env sid with
  | Some si => get_sim_instance si
  | None => None
  end.

Definition is_notification (e : Event) : Prop :=
  match e with Notified _ _ _ => True | Moved _ _ => False end.

Definition is_move (e : Event) : Prop :=
  match e with Notified _ _ _ => False | Moved _ _ => True end.

(** The results of a sequence of [load] calls, each with the files as they
    are at that moment: the accesses made and the instance returned. *)
Fixpoint load_all (fss : list (FileSystem ConfigData)) (cls : ClassState)
  : list (list FsEvent * Res ConfigObj) :=
  match fss with
  | [] => []
  | fs :: rest =>
      match load fs cls with
      | (evs, inr (c, cls')) => (evs, inr c) :: load_all rest cls'
      | (evs, inl e) => (evs, inl e) :: load_all rest cls
      end
  end.

(** ** Sample session *)

Module Sample.

Definition npc (id : Z) (traits : list string) : SimInfo :=
  {| Game.sim_id := id; is_human := true; is_baby := false;
     is_instanced := false; is_npc := true; is_played := false;
     has_instance := false; trait_names := traits |}.

Definition alice : SimInfo := npc 1 ["ACTIVE"].
Definition bob : SimInfo := npc 2 [].

(** A sim that stands on the lot when its alarm fires. *)
Definition carol : SimInfo :=
  {| Game.sim_id := 3; is_human := true; is_baby := false;
     is_instanced := true; is_npc := true; is_played := false;
     has_instance := true; trait_names := [] |}.

Definition env_with_carol : Env :=
  {| all_sims := [alice; bob; carol]; weather := None;
     day_of_week := 3; hour := 8; minute := 0;
     int_max_str_digits := 4300 |}.

Definition walk_block : TimeBlock :=
  {| start_min := 480; duration_min := 30;
     action := "WALK"; venue_tag := None |}.

(** A weekday at 07:00, no weather service. *)
Definition env : Env :=
  {| all_sims := [alice; bob]; weather := None;
     day_of_week := 3; hour := 7; minute := 0;
     int_max_str_digits := 4300 |}.

Definition config_of (ts : list Template) (tb : dict string Weights)
  : NLConfig :=
  {| participant_count := 8; time_blocks := ts; trait_bias := tb;
     weather_bias := []; weekend_bias := [];
     news_enabled := true; debug_logging := true |}.

(** [{"start": "08:00", "duration_min": [30, 30],
      "actions": {"WALK": 1.0, "HOME_IDLE": 1.0}}] *)
Definition morning : Template :=
  {| tpl_start := "08:00"; tpl_duration_min := [30; 30];
     tpl_actions := [("WALK", float_of_Z 1); ("HOME_IDLE", float_of_Z 1)] |}.

Definition cfg : NLConfig := config_of [morning] [].

(** A template with no action of its own; only an ["ACTIVE"] sim gets a
    weight, from the trait bias. *)
Definition bare : Template :=
  {| tpl_start := "08:00"; tpl_duration_min := [30; 30]; tpl_actions := [] |}.

Definition cfg_bare : NLConfig :=
  config_of [bare] [("ACTIVE", [("JOG", float_of_Z 5)])].

(** A start written past the end of the day and a range that starts at
    zero. *)
Definition late : Template :=
  {| tpl_start := "24:30"; tpl_duration_min := [0; 0];
     tpl_actions := [("WALK", float_of_Z 1)] |}.

Definition cfg_late : NLConfig := config_of [late] [].

(** A range below zero. *)
Definition backwards : Template :=
  {| tpl_start := "08:00"; tpl_duration_min := [-5; -5];
     tpl_actions := [("WALK", float_of_Z 1)] |}.

Definition cfg_backwards : NLConfig := config_of [backwards] [].



Definition host0 : Host := {| next_handle := O; live := []; cancels := [] |}.

(** The live alarms after an activation that completed: handle, sim id,
    callback and delay of each. *)
Definition armed (r : Res (Host * NeighborhoodDirector * Rng))
  : list (nat * Z * Phase * Z) :=
  match r with
  | inr (h, _, _) =>
      map (fun e => (fst e, fst (data (snd e)), callback (snd e),
                     delay (snd e)))
          (live h)
  | inl _ => []
  end.

(** A POSIX-like [os.path] and a disk without any config file. *)
Fixpoint after_slash (s : string) : string :=
  match s with
  | EmptyString => EmptyString
  | String c r => if Ascii.eqb c "/"%char then r else after_slash r
  end.

Definition posix_dirname (p : string) : string :=
  rev_string "" (after_slash (rev_string "" p)).

Definition no_files : FileSystem ConfigData :=
  {| script_file := Some "/Mods/NeighborhoodLife/neighborhood_life/util.py";
     dirname := posix_dirname;
     join := String.concat "/";
     exists_ := fun _ => false;
     json_load := fun _ => raise OSError |}.

(** The same disk once a config file has been dropped in. *)
Definition with_file : FileSystem ConfigData :=
  {| script_file := script_file no_files;
     dirname := posix_dirname;
     join := String.concat "/";
     exists_ := fun _ => true;
     json_load := fun _ =>
       ok (Object {| d_participant_count := Some 3;
                     d_time_blocks := Some [morning];
                     d_trait_bias := None; d_weather_bias := None;
                     d_weekend_bias := None;
                     d_news_enabled := Some false;
                     d_debug_logging := Some false |}) |}.

Definition fresh_class : ClassState := {| _cached := None; next_oid := O |}.

(** The host and the director an activation leaves. *)
Definition after (r : Res (Host * NeighborhoodDirector * Rng))
  : Host * NeighborhoodDirector :=
  match r with
  | inr (h, d, _) => (h, d)
  | inl _ => (host0, init cfg)
  end.

(** A first activation, a second one on top of it, and a second one after
    [stop_all]. *)
Definition once : Host * NeighborhoodDirector :=
  after (start_for_today env host0 (init cfg) []).

Definition twice : Host * NeighborhoodDirector :=
  after (start_for_today env (fst once) (snd once) []).

Definition restarted : Host * NeighborhoodDirector :=
  after (start_for_today env (fst (stop_all (fst once) (snd once)))
                             (snd (stop_all (fst once) (snd once))) []).

(** What the handlers of [bootstrap.py] leave in the singleton's handle
    list and in the host: two zone loads in a row, and two zone loads with
    the unload between them. *)
Definition handles_of (r : Res (Bootstrap.State * Rng))
  : list nat * list nat :=
  match r with
  | inr (st, _) =>
      (match Bootstrap._DIRECTOR_SINGLETON st with
       | Some d => _alarms d
       | None => []
       end,
       map fst (live (Bootstrap.host st)))
  | inl _ => ([], [])
  end.

Definition load_load : Res (Bootstrap.State * Rng) :=
  (st <- Bootstrap._on_zone_late_load with_file env Bootstrap.initial ;;
   Bootstrap._on_zone_late_load with_file env st) [].

Definition load_unload_load : Res (Bootstrap.State * Rng) :=
  (st <- Bootstrap._on_zone_late_load with_file env Bootstrap.initial ;;
   Bootstrap._on_zone_late_load with_file env (Bootstrap._on_zone_unload st))
    [].

End Sample.

(** ** Vocabulary of the further properties *)

(** Every live alarm of the host bears a handle the host has issued. *)
Definition host_wf (host : Host) : Prop :=
  Forall (fun h => (h < next_handle host)%nat) (map fst (live host)).

(** What holds of a director and its host between two calls: the host is
    well formed, and the director's handles were issued by it and are
    distinct. *)
Definition director_inv (host : Host) (d : NeighborhoodDirector) : Prop :=
  host_wf host /\ issued host d /\ NoDup (_alarms d).

(** The bias layers that [build_for_sims] applies to the table of a
    template for a sim, in the order it applies them: the layer of every
    trait of [trait_bias] that the sim has, the ["Rain"] or the ["Snow"]
    layer the weather selects, and on a weekend day the weekend layer. *)
Definition applied_layers (env : Env) (cfg : NLConfig)
    (wtype : option string) (s : SimInfo) : list Weights :=
  map snd
    (filter (fun entry => mem_str (fst entry) (trait_names s))
            (trait_bias cfg))
  ++ match wtype with
     | None => []
     | Some name =>
         match (if contains "RAIN" name then Some "Rain"
                else if contains "SNOW" name then Some "Snow"
                else None) with
         | Some key =>
             match dict_get String.eqb key (weather_bias cfg) with
             | Some adds => [adds]
             | None => []
             end
         | None => []
         end
     end
  ++ (if is_weekend env then [weekend_bias cfg] else []).

(** The table [w'] has the keys of [w], in their order, followed by the
    keys of [ks] that [w] does not have, each once. *)
Definition extends (w w' : Weights) (ks : list string) : Prop :=
  exists extra,
    keys w' = keys w ++ extra
    /\ NoDup extra
    /\ forall k, In k extra <-> In k ks /\ ~ In k (keys w).

(** The number of occurrences of a character in a string. *)
Fixpoint count_char (c : ascii) (s : string) : nat :=
  match s with
  | EmptyString => O
  | String c' r => (if Ascii.eqb c' c then 1 else 0) + count_char c r
  end.

(** A route of sim [sid] to a point of the active lot. *)
Definition sound_route (zone : Actions.Zone) (sid : Z) (r : Actions.Route)
  : Prop :=
  Actions.routed_sim r = sid
  /\ Actions.is_position_on_active_lot zone (Actions.target r) = true.

(** The most routes [execute] issues for an action. *)
Definition route_budget (act : string) : nat :=
  if String.eqb act "JOG" then 3%nat else 1%nat.

(** The raw number at position [n] of the random source. *)
Definition raw_at (g : Rng) (n : nat) : N := fst (next_raw (skipn n g)).

(** The candidate of the try number [i] of [_random_point_nearby], counted
    from 0: the raw numbers [2 i] and [2 i + 1] of the source give the
    offsets [uniform(-radius, radius)] along x and along z, each added to
    the coordinate of [pos]; the height is that of [pos]; the vector is the
    one the game makes of these three numbers. *)
Definition candidate (zone : Actions.Zone) (pos : Actions.Vector3)
    (radius : float) (g : Rng) (i : nat) : Actions.Vector3 :=
  Actions.new_vector zone
    (SFadd 53 1024 (Actions.vx pos)
       (spread (SFopp radius) radius (unit_float (raw_at g (2 * i)))))
    (Actions.vy pos)
    (SFadd 53 1024 (Actions.vz pos)
       (spread (SFopp radius) radius (unit_float (raw_at g (2 * i + 1))))).

(** A string without any line boundary of [splitlines]. *)
Fixpoint line_free (s : string) : bool :=
  match s with
  | EmptyString => true
  | String c r => negb (Tool.is_line_boundary c) && line_free r
  end.

(** A string without carriage return. *)
Fixpoint cr_free (s : string) : bool :=
  match s with
  | EmptyString => true
  | String c r => negb (Ascii.eqb c Tool.CR) && cr_free r
  end.

(** The text made of the given lines, each closed by a line feed. *)
Fixpoint lines_text (ps : list string) : string :=
  match ps with
  | [] => EmptyString
  | p :: rest => String.append p (String Tool.LF (lines_text rest))
  end.

(** The last character of a string. *)
Fixpoint last_char (s : string) : option ascii :=
  match s with
  | EmptyString => None
  | String c r =>
      match last_char r with
      | None => Some c
      | Some x => Some x
      end
  end.

(** A string that does not begin with white space. *)
Definition head_ok (s : string) : bool :=
  match s with
  | EmptyString => true
  | String c _ => negb (Tool.is_whitespace c)
  end.

(** A string that does not end with white space. *)
Definition last_ok (s : string) : bool :=
  match last_char s with
  | None => true
  | Some c => negb (Tool.is_whitespace c)
  end.

(** The lines [read_ignore_file] keeps: not empty, not a comment. *)
Definition is_pattern_line (ln : string) : bool :=
  negb (String.eqb ln "") && negb (Tool.startswith_hash ln).


(** The files of a listing that still exist, with size and time. *)
Definition present (files : list (string * option (Z * Z)))
  : list (string * (Z * Z)) :=
  flat_map (fun f => match snd f with
                     | Some m => [(fst f, m)]
                     | None => []
                     end) files.

(** The text the signature hashes for a list of files: for each, its
    relative path, its modification time and its size, without separator. *)
Fixpoint feed (pf : Tool.Platform) (files : list (string * (Z * Z)))
  : string :=
  match files with
  | [] => EmptyString
  | (rel, (size, mtime_ns)) :: rest =>
      String.append rel
        (String.append (Tool.str_int pf mtime_ns)
           (String.append (Tool.str_int pf size) (feed pf rest)))
  end.

Definition total_size (files : list (string * (Z * Z))) : Z :=
  fold_right (fun f acc => fst (snd f) + acc) 0 files.

(** ** Further sample data *)

Module Scenario.

(** The same weekday at 09:00, after the morning block has started. *)
Definition late_env : Env :=
  {| all_sims := [Sample.alice; Sample.bob]; weather := None;
     day_of_week := 3; hour := 9; minute := 0;
     int_max_str_digits := 4300 |}.

Definition morning_schedule : DailySchedule :=
  {| Schedules.sim_id := 1; blocks := [Sample.walk_block] |}.

(** A director that holds the morning schedule of sim 1 and no handle. *)
Definition scheduled : NeighborhoodDirector :=
  {| cfg := Sample.cfg; _schedules := [(1, morning_schedule)];
     _alarms := [] |}.

(** A zone in which every instanced sim stands at the origin, on a lot
    that accepts every point. *)
Definition origin : Actions.Vector3 :=
  {| Actions.vx := fzero; Actions.vy := fzero; Actions.vz := fzero |}.

Definition open_lot : Actions.Zone :=
  {| Actions.instance_position :=
       fun si => if has_instance si then Some origin else None;
     Actions.is_position_on_active_lot := fun _ => true;
     Actions.new_vector := Actions.Build_Vector3 |}.

(** A platform for the examples: patterns of the shape [*suffix] match by
    suffix and any other pattern matches by equality (a fragment of
    [fnmatch]); LF line ends; integers and digests left as markers. *)
Definition ends_with (suffix s : string) : bool :=
  String.prefix (Py.rev_string "" suffix) (Py.rev_string "" s).

Definition simple_platform : Tool.Platform :=
  {| Tool.fnmatch :=
       fun name pat =>
         match pat with
         | String "*"%char suffix => ends_with suffix name
         | _ => String.eqb name pat
         end;
     Tool.crlf := false;
     Tool.str_int := fun _ => "#";
     Tool.sha256_hex := fun fed => fed |}.

(** A workspace with a cache directory, a compiled file and two sources. *)
Definition workspace : Tool.Node :=
  Tool.Dir ""
    [ Tool.Dir "__pycache__" [Tool.File "a.cpython-37.pyc" (Some (90, 5))];
      Tool.File "a.py" (Some (120, 7));
      Tool.File "a.pyc" (Some (80, 7));
      Tool.Dir "sub" [Tool.File "b.py" (Some (40, 9))] ].

(** The text of the ignore box: ["  *.pyc "], a blank line, ["# caches"]
    and [".git/"] closed by CR LF. *)
Definition box : string :=
  String.concat (String Tool.LF EmptyString)
    ["  *.pyc "; EmptyString; "# caches";
     String.append ".git/" (String Tool.CR (String Tool.LF EmptyString))].

(** The state of the module after an outcome of a zone handler. *)
Definition state_after (r : Res (Bootstrap.State * Rng)) : Bootstrap.State :=
  match r with
  | inr (st, _) => st
  | inl _ => Bootstrap.initial
  end.

(** A first zone load with the config file on disk, and the zone load that
    follows the unload, when the file is gone. *)
Definition loaded : Bootstrap.State :=
  state_after
    (Bootstrap._on_zone_late_load Sample.with_file Sample.env
       Bootstrap.initial []).

Definition reloaded : Bootstrap.State :=
  state_after
    (Bootstrap._on_zone_late_load Sample.no_files Sample.env
       (Bootstrap._on_zone_unload loaded) []).

End Scenario.

(* ===================================================================== *)
(** * Properties                                                          *)
(* ===================================================================== *)

(** ** The random source *)

Section Shuffle.
Context {A : Type}.

Lemma set_nth_split (l1 l2 : list A) (a x : A) :
  set_nth (List.length l1) x (l1 ++ a :: l2) = l1 ++ x :: l2.
Proof.
  unfold set_nth. induction l1 as [| b l1 IH]; simpl.
  - reflexivity.
  - f_equal. exact IH.
Qed.

Lemma set_nth_perm (i : nat) (a x : A) (l : list A) :
  nth_error l i = Some a ->
  Permutation (a :: set_nth i x l) (x :: l).
Proof.
  intros H. apply nth_error_split in H.
  destruct H as (l1 & l2 & -> & <-). rewrite set_nth_split.
  transitivity (a :: x :: l1 ++ l2).
  - apply perm_skip, Permutation_sym, Permutation_middle.
  - transitivity (x :: a :: l1 ++ l2); [apply perm_swap |].
    apply perm_skip, Permutation_middle.
Qed.

Lemma nth_error_set_nth_same (i : nat) (x a : A) (l : list A) :
  nth_error l i = Some a -> nth_error (set_nth i x l) i = Some x.
Proof.
  intros H. apply nth_error_split in H.
  destruct H as (l1 & l2 & -> & <-). rewrite set_nth_split.
  rewrite nth_error_app2 by lia. rewrite Nat.sub_diag. reflexivity.
Qed.

Lemma nth_error_set_nth_other (i j : nat) (x : A) (l : list A) :
  i <> j -> (i < List.length l)%nat ->
  nth_error (set_nth i x l) j = nth_error l j.
Proof.
  intros Hij Hi.
  destruct (nth_error l i) as [a|] eqn:E;
    [| apply nth_error_None in E; lia].
  apply nth_error_split in E.
  destruct E as (l1 & l2 & -> & <-). rewrite set_nth_split.
  destruct (Nat.lt_ge_cases j (List.length l1)).
  - rewrite !nth_error_app1 by lia. reflexivity.
  - rewrite !nth_error_app2 by lia.
    destruct (j - List.length l1)%nat eqn:K; [lia | reflexivity].
Qed.

Lemma swap_perm (i j : nat) (l : list A) : Permutation (swap i j l) l.
Proof.
  unfold swap.
  destruct (nth_error l i) as [a|] eqn:Ei; [| reflexivity].
  destruct (nth_error l j) as [b|] eqn:Ej; [| reflexivity].
  assert (Hb : nth_error (set_nth i b l) j = Some b).
  { destruct (Nat.eq_dec i j) as [<- | Hne].
    - eapply nth_error_set_nth_same; eauto.
    - rewrite nth_error_set_nth_other; auto.
      apply nth_error_Some. congruence. }
  apply (Permutation_cons_inv (a := b)).
  rewrite (set_nth_perm j b a _ Hb).
  apply (set_nth_perm i a b l Ei).
Qed.

Lemma shuffle_from_perm (i : nat) :
  forall (l : list A) (g : Rng),
  exists l' g', shuffle_from i l g = inr (l', g') /\ Permutation l' l.
Proof.
  induction i as [| i IH]; intros l g; simpl.
  - exists l, g. split; [reflexivity | apply Permutation_refl].
  - destruct (next_raw g) as [x g1].
    destruct (IH (swap (S i) (randbelow (S (S i)) x) l) g1)
      as (l' & g' & Hrun & Hperm).
    exists l', g'. split; [exact Hrun |].
    rewrite Hperm. apply swap_perm.
Qed.

Lemma shuffle_perm (l : list A) (g : Rng) :
  exists l' g', shuffle l g = inr (l', g') /\ Permutation l' l.
Proof. apply shuffle_from_perm. Qed.
End Shuffle.

(** ** Participant selection *)

Lemma take_length {A} (n : Z) (l : list A) :
  List.length (take n l) = Nat.min (Z.to_nat n) (List.length l).
Proof. unfold take. apply length_firstn. Qed.

Lemma take_split {A} (n : Z) (l : list A) :
  take n l ++ skipn (Z.to_nat n) l = l.
Proof. unfold take. apply firstn_skipn. Qed.

(** C10: for every requested count, [select_participant_sims] returns (it
    never raises) a list [picked] that is a part of the shuffled pool of
    eligible sims: together with some [rest] it is a rearrangement of the
    pool, so every picked sim is an eligible sim of the manager and none is
    picked more often than it occurs. Its length is the smaller of
    [max(1, count)] and the size of the pool; hence it is at most
    [max(1, count)], at most the number of candidates, and for [count <= 0]
    it is one participant whenever the pool is not empty. *)
Theorem select_participant_sims_bounded (env : Env) (count : Z) (g : Rng) :
  exists picked rest g',
    select_participant_sims env count g = inr (picked, g')
    /\ Permutation (picked ++ rest) (filter eligible (all_sims env))
    /\ List.length picked =
       Nat.min (Z.to_nat (Z.max 1 count))
               (List.length (filter eligible (all_sims env)))
    /\ Z.of_nat (List.length picked) <= Z.max 1 count
    /\ (List.length picked <= List.length (filter eligible (all_sims env)))%nat
    /\ Forall (fun s => In s (all_sims env) /\ eligible s = true) picked
    /\ (count <= 0 ->
        List.length picked =
        Nat.min 1 (List.length (filter eligible (all_sims env)))).
Proof.
  unfold select_participant_sims, bind, ret.
  destruct (shuffle_perm (filter eligible (all_sims env)) g)
    as (l' & g' & Hrun & Hperm).
  rewrite Hrun.
  exists (take (Z.max 1 count) l'), (skipn (Z.to_nat (Z.max 1 count)) l'), g'.
  assert (Hlen : List.length (take (Z.max 1 count) l') =
                 Nat.min (Z.to_nat (Z.max 1 count))
                         (List.length (filter eligible (all_sims env)))).
  { rewrite take_length, (Permutation_length Hperm). reflexivity. }
  split; [reflexivity |].
  split; [rewrite take_split; exact Hperm |].
  split; [exact Hlen |].
  split; [rewrite Hlen; lia |].
  split; [rewrite Hlen; lia |].
  split.
  - apply Forall_forall. intros s Hs.
    assert (Hin : In s (filter eligible (all_sims env))).
    { apply (Permutation_in s Hperm).
      rewrite <- (take_split (Z.max 1 count) l').
      apply in_or_app. left. exact Hs. }
    apply filter_In in Hin. exact Hin.
  - intros Hc. rewrite Hlen.
    replace (Z.max 1 count) with 1 by lia. reflexivity.
Qed.

(** ** The weighted selector *)

Lemma fmax_of_positive (v : float) : fgt v fzero = true -> fmax v fzero = v.
Proof.
  unfold fmax, fgt, flt, fzero.
  destruct v as [s | s | | s m e]; try destruct s; simpl;
    intros H; try discriminate H; reflexivity.
Qed.

(** The filtered list keeps the entries with a strictly positive weight, in
    the order of the map and with their weights unchanged. *)
Lemma positive_items_filter (weights : Weights) :
  positive_items weights = positives weights.
Proof.
  unfold positive_items, positives.
  induction weights as [| [k v] ws IH]; simpl; [reflexivity |].
  change (SFltb (S754_zero false) v) with (fgt v fzero).
  destruct (fgt v fzero) eqn:E; simpl; [| exact IH].
  rewrite IH, (fmax_of_positive v E). reflexivity.
Qed.

Lemma positives_in (weights : Weights) (k : string) (v : float) :
  In (k, v) (positives weights) <->
  In (k, v) weights /\ SFltb (S754_zero false) v = true.
Proof. unfold positives. rewrite filter_In. reflexivity. Qed.

Lemma positive_items_keys (weights : Weights) (k : string) :
  In k (keys (positive_items weights)) -> In k (keys weights).
Proof.
  rewrite positive_items_filter. unfold keys, positives. intros H.
  apply in_map_iff in H. destruct H as (kv & <- & Hin).
  apply filter_In in Hin. apply in_map. tauto.
Qed.

Lemma fsum_total (items : list (string * float)) :
  fsum (values items) = total_weight items.
Proof. reflexivity. Qed.

(** [uniform] reads one raw number and computes [a + (b - a) * u] on the
    float [u] made of it. *)
Lemma uniform_spread (a b : float) (g : Rng) :
  uniform a b g =
  inr (spread a b (unit_float (fst (next_raw g))), snd (next_raw g)).
Proof.
  unfold uniform, bind, random, ret. destruct (next_raw g) as [x g1].
  reflexivity.
Qed.

(** [walk] stops at the first entry whose running sum reaches [r]. *)
Lemma walk_first (r : float) (items : list (string * float)) :
  forall (upto : float) (k : string),
  walk r upto items = Some k ->
  exists pre v post,
    items = pre ++ (k, v) :: post
    /\ SFleb r (SFadd 53 1024 (running upto pre) v) = true
    /\ forall pre1 k1 v1 pre2,
         pre = pre1 ++ (k1, v1) :: pre2 ->
         SFleb r (SFadd 53 1024 (running upto pre1) v1) = false.
Proof.
  induction items as [| [k0 v0] rest IH]; intros upto k H; simpl in H.
  - discriminate.
  - destruct (fge (fadd upto v0) r) eqn:E.
    + inversion H; subst k0. exists [], v0, rest.
      split; [reflexivity |]. split; [exact E |].
      intros [|] ? ? ? Hpre; discriminate.
    + destruct (IH _ _ H) as (pre & v & post & -> & Hhit & Hmiss).
      exists ((k0, v0) :: pre), v, post.
      split; [reflexivity |]. split; [exact Hhit |].
      intros [| p pre1] k1 v1 pre2 Hpre; simpl in Hpre.
      * inversion Hpre; subst. exact E.
      * inversion Hpre; subst. exact (Hmiss pre1 k1 v1 pre2 eq_refl).
Qed.

(** [walk] runs off the end only when no running sum reaches [r]. *)
Lemma walk_exhausted (r : float) (items : list (string * float)) :
  forall (upto : float),
  walk r upto items = None ->
  forall pre1 k1 v1 pre2,
    items = pre1 ++ (k1, v1) :: pre2 ->
    SFleb r (SFadd 53 1024 (running upto pre1) v1) = false.
Proof.
  induction items as [| [k0 v0] rest IH]; intros upto H pre1 k1 v1 pre2 Hsplit.
  - destruct pre1; discriminate.
  - simpl in H. destruct (fge (fadd upto v0) r) eqn:E; [discriminate |].
    destruct pre1 as [| p pre1]; simpl in Hsplit; inversion Hsplit; subst.
    + exact E.
    + exact (IH (fadd upto v0) H pre1 k1 v1 pre2 eq_refl).
Qed.

Lemma walk_key (r : float) (items : list (string * float)) (upto : float)
    (k : string) :
  walk r upto items = Some k -> In k (keys items).
Proof.
  intros H. destruct (walk_first _ _ _ _ H) as (pre & v & post & -> & _).
  unfold keys. rewrite map_app. apply in_or_app. right. left. reflexivity.
Qed.

Lemma randbelow_lt (n : nat) (x : N) : (0 < n)%nat -> (randbelow n x < n)%nat.
Proof.
  intros Hn. unfold randbelow.
  pose proof (N.mod_upper_bound x (N.of_nat n)). lia.
Qed.

Lemma choice_spec {A} (seq : list A) (g : Rng) :
  seq <> [] ->
  exists a, choice seq g = inr (a, snd (next_raw g))
       /\ nth_error seq (randbelow (List.length seq) (fst (next_raw g))) = Some a.
Proof.
  intros Hne. unfold choice. destruct (next_raw g) as [x g']; simpl.
  destruct (nth_error seq (randbelow (List.length seq) x)) as [a|] eqn:E.
  - exists a. split; reflexivity.
  - apply nth_error_None in E.
    assert (0 < List.length seq)%nat by (destruct seq; simpl; [congruence | lia]).
    pose proof (randbelow_lt (List.length seq) x). lia.
Qed.

(** Every position of a sequence is reached by some draw of [choice]. *)
Lemma choice_reaches {A} (seq : list A) (i : nat) (a : A) :
  nth_error seq i = Some a -> choice seq [N.of_nat i] = inr (a, []).
Proof.
  intros H. unfold choice; simpl.
  assert (Hi : (i < List.length seq)%nat) by (apply nth_error_Some; congruence).
  unfold randbelow. rewrite N.mod_small by lia.
  rewrite Nnat.Nat2N.id, H. reflexivity.
Qed.

Lemma last_indep {A} (l : list A) (d d' : A) : l <> [] -> last l d = last l d'.
Proof.
  induction l as [| a [| b l] IH]; intros Hne; simpl in *.
  - congruence.
  - reflexivity.
  - apply IH. discriminate.
Qed.

Lemma last_in {A} (l : list A) (d : A) : l <> [] -> In (last l d) l.
Proof.
  induction l as [| a [| b l] IH]; intros Hne.
  - congruence.
  - left. reflexivity.
  - right. apply IH. discriminate.
Qed.

(** What [weighted_choice] does on a table with a strictly positive
    weight: one raw number is read, and the key is the one the loop stops
    at for the draw made of it, or the last positive key when the loop runs
    off the end. *)
Lemma weighted_choice_weighted (weights : Weights) (g : Rng) :
  positives weights <> [] ->
  exists k,
    weighted_choice weights g = inr (k, snd (next_raw g))
    /\ In k (keys (positives weights))
    /\ (first_reaching (draw weights g) (positives weights) k
        \/ (none_reaching (draw weights g) (positives weights)
            /\ forall d, fst (last (positives weights) d) = k)).
Proof.
  intros Hne. unfold weighted_choice, draw.
  rewrite positive_items_filter.
  destruct (positives weights) as [| first rest] eqn:Eitems; [congruence |].
  set (items := first :: rest) in *.
  unfold bind. rewrite uniform_spread, fsum_total. unfold ret.
  change (float_of_Z 0) with (S754_zero false).
  set (r := spread _ _ _).
  destruct (walk r fzero items) as [k |] eqn:Ew.
  - exists k. split; [reflexivity |].
    split; [eapply walk_key; exact Ew |]. left.
    exact (walk_first _ _ _ _ Ew).
  - exists (fst (last items first)). split; [reflexivity |].
    split; [apply in_map; apply last_in; exact Hne |]. right. split.
    + intros pre1 k1 v1 pre2 Hsplit.
      exact (walk_exhausted _ _ _ Ew pre1 k1 v1 pre2 Hsplit).
    + intros d. f_equal. apply last_indep. exact Hne.
Qed.

(** C3, as the code has it: on a non-empty weight map [weighted_choice]
    returns, and what it returns is a key of the map. When some weight is
    strictly positive, the draw is
    [r = 0 + (total - 0) * random()] in double arithmetic, [total] being the
    sum from the left of the strictly positive weights in the map's order
    and [random()] the next 53 random bits scaled by 2^-53; the result is
    the first of the positive keys whose running sum [upto + weight]
    reaches [r], or the last positive key when no running sum reaches it.
    When no weight is strictly positive, the result is the key at position
    [randbelow(len(keys))] among all keys of the map, whatever their sign,
    and every key of the map is returned by some draw. *)
Theorem weighted_choice_returns_key (weights : Weights) (g : Rng) :
  weights <> [] ->
  exists k g',
    weighted_choice weights g = inr (k, g')
    /\ In k (keys weights)
    /\ (positives weights <> [] ->
        first_reaching (draw weights g) (positives weights) k
        \/ (none_reaching (draw weights g) (positives weights)
            /\ forall d, fst (last (positives weights) d) = k))
    /\ (positives weights = [] ->
        nth_error (keys weights)
          (randbelow (List.length (keys weights)) (fst (next_raw g)))
        = Some k
        /\ forall k', In k' (keys weights) ->
             exists g0 g1, weighted_choice weights g0 = inr (k', g1)).
Proof.
  intros Hne.
  destruct (positives weights) as [| first rest] eqn:Eitems.
  - (* no strictly positive weight: uniform over all keys *)
    assert (Hk : keys weights <> []) by (destruct weights; simpl; congruence).
    assert (Hrun : forall g0, weighted_choice weights g0 = choice (keys weights) g0).
    { intros g0. unfold weighted_choice.
      rewrite positive_items_filter, Eitems. reflexivity. }
    destruct (choice_spec (keys weights) g Hk) as (k & Hc & Hnth).
    exists k, (snd (next_raw g)). rewrite Hrun. split; [exact Hc |].
    split; [eapply nth_error_In; exact Hnth |].
    split; [congruence |].
    intros _. split; [exact Hnth |].
    intros k' Hin. apply In_nth_error in Hin. destruct Hin as [i Hi].
    exists [N.of_nat i], []. rewrite Hrun. apply choice_reaches. exact Hi.
  - (* weighted sampling over the positive entries *)
    destruct (weighted_choice_weighted weights g) as (k & Hrun & Hin & Hk);
      [rewrite Eitems; discriminate |].
    exists k, (snd (next_raw g)). split; [exact Hrun |].
    split.
    { rewrite <- positive_items_filter in Hin.
      apply positive_items_keys. exact Hin. }
    rewrite Eitems in Hk.
    split; [intros _; exact Hk | intros; discriminate].
Qed.

(** The theorem at the table [{"WALK": 1.0, "HOME_IDLE": 1.0}]. *)
Lemma weighted_choice_returns_key_witness :
  exists k g',
    weighted_choice [("WALK", float_of_Z 1); ("HOME_IDLE", float_of_Z 1)]
      [5%N] = inr (k, g')
    /\ In k (keys [("WALK", float_of_Z 1); ("HOME_IDLE", float_of_Z 1)]).
Proof.
  destruct (weighted_choice_returns_key
              [("WALK", float_of_Z 1); ("HOME_IDLE", float_of_Z 1)] [5%N])
    as (k & g' & Hrun & Hin & _).
  - discriminate.
  - exists k, g'. split; assumption.
Defined.

(** C3 as stated fails: the draw is not always below the total. On the
    table [{"WALK": 5e-324}], whose total is the smallest positive float,
    [random()] at its largest value gives a product that rounds back to the
    total. *)
Lemma draw_reaches_total :
  ~ (forall weights g r g',
       positive_items weights <> [] ->
       uniform (float_of_Z 0) (fsum (values (positive_items weights))) g
       = inr (r, g') ->
       flt r (fsum (values (positive_items weights))) = true).
Proof.
  intros H.
  specialize (H [("WALK", S754_finite false 1 (-1074))]
                [9007199254740991%N]
                (S754_finite false 1 (-1074)) []).
  assert (E : flt (S754_finite false 1 (-1074))
                (fsum (values (positive_items
                                 [("WALK", S754_finite false 1 (-1074))])))
              = false) by reflexivity.
  rewrite E in H. discriminate H.
  - discriminate.
  - reflexivity.
Qed.

(** On a table with an infinite weight ([1e999] in the file) a [random()]
    of 0.0 makes the draw nan: no running sum reaches it, and the key
    comes from the fallback after the loop. *)
Example draw_is_nan :
  uniform (float_of_Z 0) (S754_infinity false) [0%N] = inr (S754_nan, [])
  /\ walk S754_nan fzero [("WALK", S754_infinity false)] = None
  /\ weighted_choice [("WALK", S754_infinity false)] [0%N] = inr ("WALK", []).
Proof. repeat split. Qed.

(** At [{"A": 1.0, "B": 2.0}] the draw made of 3002399751580331 is the
    float 1.0, which the running sum of the first entry reaches. *)
Example draw_is_rounded :
  draw [("A", float_of_Z 1); ("B", float_of_Z 2)] [3002399751580331%N]
  = float_of_Z 1
  /\ weighted_choice [("A", float_of_Z 1); ("B", float_of_Z 2)]
       [3002399751580331%N] = inr ("A", []).
Proof. split; reflexivity. Qed.

(** ** Arming and cancelling alarms *)

Lemma combine_append {A B} (l1 l2 : list A) (m1 m2 : list B) :
  List.length l1 = List.length m1 ->
  combine (l1 ++ l2) (m1 ++ m2) = combine l1 m1 ++ combine l2 m2.
Proof.
  revert m1. induction l1 as [| a l1 IH]; intros [| b m1] Hlen;
    simpl in *; try discriminate.
  - reflexivity.
  - f_equal. apply IH. congruence.
Qed.

Lemma number_from_app (n : nat) (l1 l2 : list Alarm) :
  number_from n (l1 ++ l2) =
  number_from n l1 ++ number_from (n + List.length l1) l2.
Proof.
  unfold number_from. rewrite length_app, seq_app.
  rewrite combine_append by apply length_seq. reflexivity.
Qed.

Lemma register_nil (st : Host * list nat) : register [] st = st.
Proof.
  destruct st as [[n lv cs] al]. unfold register, number_from; simpl.
  rewrite Nat.add_0_r, !app_nil_r. reflexivity.
Qed.

Lemma register_app (l1 l2 : list Alarm) (st : Host * list nat) :
  register l2 (register l1 st) = register (l1 ++ l2) st.
Proof.
  destruct st as [[n lv cs] al]. unfold register; simpl.
  rewrite number_from_app, length_app, seq_app, !app_assoc, Nat.add_assoc.
  reflexivity.
Qed.

Lemma arm_block_register (now_min sid : Z) (block : TimeBlock)
    (st : Host * list nat) :
  arm_block now_min sid block st = register (block_alarms now_min sid block) st.
Proof.
  destruct st as [[n lv cs] al]. unfold arm_block, register, set_alarm,
    number_from, block_alarms; simpl.
  rewrite <- !app_assoc. simpl.
  replace (n + 2)%nat with (S (S n)) by lia. reflexivity.
Qed.

Lemma arm_schedule_register (now_min : Z) (ds : DailySchedule)
    (st : Host * list nat) :
  arm_schedule now_min st ds = register (schedule_alarms now_min ds) st.
Proof.
  unfold arm_schedule, schedule_alarms.
  revert st. induction (blocks ds) as [| b bs IH]; intros st; simpl.
  - symmetry. apply register_nil.
  - rewrite IH, arm_block_register. apply register_app.
Qed.

Lemma arm_all_register (now_min : Z) (scheds : list DailySchedule) :
  forall st,
  fold_left (arm_schedule now_min) scheds st =
  register (expected_alarms now_min scheds) st.
Proof.
  unfold expected_alarms.
  induction scheds as [| ds rest IH]; intros st; simpl.
  - symmetry. apply register_nil.
  - rewrite IH, arm_schedule_register. apply register_app.
Qed.

Lemma _schedule_alarms_register (env : Env) (host : Host)
    (d : NeighborhoodDirector) :
  _schedule_alarms env host d =
  (fst (register (expected_alarms (get_today_minutes env)
                                  (values (_schedules d)))
                 (host, _alarms d)),
   {| cfg := cfg d;
      _schedules := _schedules d;
      _alarms := snd (register (expected_alarms (get_today_minutes env)
                                                (values (_schedules d)))
                               (host, _alarms d)) |}).
Proof.
  unfold _schedule_alarms. rewrite arm_all_register. reflexivity.
Qed.

Lemma cancel_all (handles : list nat) :
  forall host,
  fold_left cancel_alarm handles host =
  {| next_handle := next_handle host;
     live := filter (spared handles) (live host);
     cancels := cancels host ++ handles |}.
Proof.
  induction handles as [| h hs IH]; intros [n lv cs]; simpl.
  - rewrite app_nil_r. f_equal.
    induction lv as [| e lv IHl]; simpl; [reflexivity | f_equal; exact IHl].
  - rewrite IH. unfold cancel_alarm; simpl. rewrite <- app_assoc. f_equal.
    induction lv as [| e lv IHl]; simpl; [reflexivity |].
    unfold spared at 2; simpl.
    destruct (Nat.eqb (fst e) h); simpl; [exact IHl |].
    fold (spared hs e). destruct (spared hs e); [f_equal |]; exact IHl.
Qed.

Lemma spared_not_live (handles : list nat) (lv : list (nat * Alarm)) (h : nat) :
  In h handles -> ~ In h (map fst (filter (spared handles) lv)).
Proof.
  intros Hin Hlive. apply in_map_iff in Hlive.
  destruct Hlive as (e & <- & He). apply filter_In in He.
  destruct He as [_ Hsp]. unfold spared in Hsp.
  apply negb_true_iff in Hsp.
  assert (Hex : existsb (Nat.eqb (fst e)) handles = true).
  { apply existsb_exists. exists (fst e). split; [exact Hin |].
    apply Nat.eqb_refl. }
  congruence.
Qed.

(** C7: [stop_all] passes every recorded handle, Start and End alike, to
    [cancel_alarm], in the order recorded; afterwards none of them is live in
    the host, the host's other alarms are untouched, and the director holds
    no handle and no schedule. It is idempotent: on the state it produces,
    and on any director whose handle list and schedule map are empty, it
    changes neither the director nor the host. *)
Theorem stop_all_drains (host : Host) (d : NeighborhoodDirector) :
  exists host' d',
    stop_all host d = (host', d')
    /\ _alarms d' = []
    /\ _schedules d' = []
    /\ cfg d' = cfg d
    /\ cancels host' = cancels host ++ _alarms d
    /\ Forall (fun h => ~ is_live host' h) (_alarms d)
    /\ live host' = filter (spared (_alarms d)) (live host)
    /\ next_handle host' = next_handle host
    /\ stop_all host' d' = (host', d')
    /\ stop_all host (init (cfg d)) = (host, init (cfg d)).
Proof.
  unfold stop_all. rewrite cancel_all.
  eexists. eexists. split; [reflexivity |]. simpl.
  repeat split.
  - apply Forall_forall. intros h Hin. unfold is_live; simpl.
    apply spared_not_live. exact Hin.
Qed.

(** ** Building schedules *)

Lemma weighted_choice_in_keys (weights : Weights) (g g' : Rng) (k : string) :
  weighted_choice weights g = inr (k, g') -> In k (keys weights).
Proof.
  unfold weighted_choice.
  destruct (positive_items weights) as [| first rest] eqn:Eitems.
  - unfold choice. destruct (next_raw g) as [x g1].
    destruct (nth_error (keys weights) _) as [a|] eqn:E; [| discriminate].
    intros H; inversion H; subst. eapply nth_error_In; exact E.
  - unfold bind, uniform, bind, random, ret.
    destruct (next_raw g) as [x g1].
    destruct (walk _ fzero (first :: rest)) as [k0|] eqn:Ew;
      intros H; inversion H; subst; apply positive_items_keys; rewrite Eitems.
    + eapply walk_key; exact Ew.
    + assert (Hne : first :: rest <> []) by discriminate.
      exact (in_map fst _ _ (last_in (first :: rest) first Hne)).
Qed.

Lemma weighted_choice_defined (weights : Weights) (g : Rng) :
  weights <> [] -> exists k g', weighted_choice weights g = inr (k, g').
Proof.
  intros Hne. unfold weighted_choice.
  destruct (positive_items weights) as [| first rest].
  - assert (Hk : keys weights <> []) by (destruct weights; simpl; congruence).
    destruct (choice_spec (keys weights) g Hk) as (k & Hrun & _).
    eauto.
  - unfold bind, uniform, bind, random, ret.
    destruct (next_raw g) as [x g1].
    destruct (walk _ fzero (first :: rest)); eauto.
Qed.

Lemma randint_range (lo hi : Z) (g g' : Rng) (v : Z) :
  randint lo hi g = inr (v, g') -> lo <= v <= hi.
Proof.
  unfold randint. destruct (hi <? lo) eqn:E; [discriminate |].
  apply Z.ltb_ge in E. destruct (next_raw g) as [x g1].
  intros H; inversion H; subst.
  pose proof (Z.mod_pos_bound (Z.of_N x) (hi - lo + 1)). lia.
Qed.

Lemma randint_defined (lo hi : Z) (g : Rng) :
  lo <= hi -> exists v g', randint lo hi g = inr (v, g').
Proof.
  intros H. unfold randint.
  destruct (hi <? lo) eqn:E; [apply Z.ltb_lt in E; lia |].
  destruct (next_raw g) as [x g1]. eauto.
Qed.

Lemma time_str_to_minutes_inv (env : Env) (s : string) (v : Z) :
  time_str_to_minutes env s = inr v ->
  exists hs ms h m,
    split ":"%char s = [hs; ms]
    /\ int_of_str (int_max_str_digits env) hs = inr h
    /\ int_of_str (int_max_str_digits env) ms = inr m
    /\ v = h * 60 + m.
Proof.
  unfold time_str_to_minutes.
  destruct (split ":"%char s) as [| hs [| ms [| x rest]]]; try discriminate.
  destruct (int_of_str _ hs) as [e | h] eqn:Eh; [discriminate |].
  destruct (int_of_str _ ms) as [e | m] eqn:Em; [discriminate |].
  intros H; inversion H; subst. exists hs, ms, h, m. auto.
Qed.

Lemma build_block_sound (env : Env) (cfg : NLConfig) (sim_info : SimInfo)
    (t : Template) (g g' : Rng) (b : TimeBlock) :
  build_block env cfg (_get_weather_type env) sim_info t g = inr (b, g') ->
  block_from env cfg sim_info t b.
Proof.
  unfold build_block, bind, lift, index, ret.
  destruct (time_str_to_minutes env (tpl_start t)) as [e | start] eqn:Es;
    [discriminate |].
  destruct (nth_error (tpl_duration_min t) 0) as [lo |] eqn:Elo;
    [| discriminate].
  destruct (nth_error (tpl_duration_min t) 1) as [hi |] eqn:Ehi;
    [| discriminate].
  simpl.
  destruct (randint lo hi g) as [e | [dur g1]] eqn:Er; [discriminate |].
  destruct (weighted_choice _ g1) as [e | [act g2]] eqn:Ew; [discriminate |].
  intros H; inversion H; subst; clear H.
  destruct (time_str_to_minutes_inv _ _ _ Es)
    as (hs & ms & h & m & ? & ? & ? & ?).
  exists hs, ms, h, m, lo, hi; simpl.
  repeat split; auto; try (apply (randint_range _ _ _ _ _ Er)).
  eapply weighted_choice_in_keys; exact Ew.
Qed.

Lemma build_block_defined (env : Env) (cfg : NLConfig) (sim_info : SimInfo)
    (t : Template) (g : Rng) :
  template_ok env cfg sim_info t ->
  exists b g',
    build_block env cfg (_get_weather_type env) sim_info t g = inr (b, g').
Proof.
  intros ((start & Es) & (lo & hi & Elo & Ehi & Hle) & Hne).
  unfold build_block, bind, lift, index, ret.
  rewrite Es, Elo, Ehi; simpl.
  destruct (randint_defined lo hi g Hle) as (dur & g1 & Er). rewrite Er.
  destruct (weighted_choice_defined _ g1 Hne) as (act & g2 & Ew). rewrite Ew.
  eauto.
Qed.

Lemma for_each_sound {A B} (body : A -> Comp B) (R : A -> B -> Prop) :
  (forall x g b g', body x g = inr (b, g') -> R x b) ->
  forall xs g bs g',
    for_each body xs g = inr (bs, g') -> Forall2 R xs bs.
Proof.
  intros Hbody. induction xs as [| x xs IH]; intros g bs g' H; simpl in H.
  - inversion H; subst. constructor.
  - unfold bind, ret in H.
    destruct (body x g) as [e | [b g1]] eqn:Eb; [discriminate |].
    destruct (for_each body xs g1) as [e | [bs1 g2]] eqn:Er; [discriminate |].
    inversion H; subst. constructor; eauto.
Qed.

Lemma for_each_defined {A B} (body : A -> Comp B) (xs : list A) :
  Forall (fun x => forall g, exists b g', body x g = inr (b, g')) xs ->
  forall g, exists bs g', for_each body xs g = inr (bs, g').
Proof.
  induction 1 as [| x xs Hx _ IH]; intros g; simpl.
  - unfold ret. eauto.
  - unfold bind, ret. destruct (Hx g) as (b & g1 & Eb). rewrite Eb.
    destruct (IH g1) as (bs & g2 & Er). rewrite Er. eauto.
Qed.

Section ScheduleDict.
Context {V : Type}.
Implicit Types (d : dict Z V) (k : Z) (v : V).

Lemma dict_set_keys k v d :
  keys (dict_set Z.eqb k v d) =
  if existsb (Z.eqb k) (keys d) then keys d else keys d ++ [k].
Proof.
  unfold keys.
  induction d as [| [k' v'] d IH]; simpl; [reflexivity |].
  destruct (Z.eqb_spec k k') as [-> | Hne]; simpl; [reflexivity |].
  rewrite IH.
  destruct (existsb (Z.eqb k) (map fst d)); reflexivity.
Qed.

Lemma existsb_eqb_in k (ks : list Z) : existsb (Z.eqb k) ks = true <-> In k ks.
Proof.
  rewrite existsb_exists. split.
  - intros (x & Hin & E). apply Z.eqb_eq in E. subst. exact Hin.
  - intros Hin. exists k. split; [exact Hin | apply Z.eqb_refl].
Qed.

Lemma dict_set_keys_in k v d k' :
  In k' (keys (dict_set Z.eqb k v d)) <-> k' = k \/ In k' (keys d).
Proof.
  rewrite dict_set_keys.
  destruct (existsb (Z.eqb k) (keys d)) eqn:E.
  - apply existsb_eqb_in in E. split; [tauto |].
    intros [-> | H]; assumption.
  - rewrite in_app_iff; simpl. split; [intros [H | [H | []]] | intros [H | H]];
      auto.
Qed.

Lemma dict_set_keys_nodup k v d :
  NoDup (keys d) -> NoDup (keys (dict_set Z.eqb k v d)).
Proof.
  intros Hnd. rewrite dict_set_keys.
  destruct (existsb (Z.eqb k) (keys d)) eqn:E; [exact Hnd |].
  apply NoDup_app; [exact Hnd | repeat constructor; intros [] |].
  intros x Hx [<- | []].
  apply existsb_eqb_in in Hx. congruence.
Qed.

Lemma dict_set_entries k v d (P : Z * V -> Prop) :
  Forall P d -> P (k, v) ->
  (forall v', In (k, v') d -> P (k, v)) ->
  Forall P (dict_set Z.eqb k v d).
Proof.
  intros Hd Hkv _. induction Hd as [| [k' v'] d Hx Hd IH]; simpl.
  - repeat constructor. exact Hkv.
  - destruct (Z.eqb_spec k k') as [-> | Hne]; constructor; auto.
Qed.

End ScheduleDict.

Lemma entry_built_more (env : Env) (cfg : NLConfig) (done more : list SimInfo)
    (kv : Z * DailySchedule) :
  entry_built env cfg done kv -> entry_built env cfg (done ++ more) kv.
Proof.
  intros (Hid & s & Hin & Hs & Hb). split; [exact Hid |].
  exists s. split; [apply in_or_app; left; exact Hin | auto].
Qed.

Lemma build_loop_sound (env : Env) (cfg : NLConfig) (sims : list SimInfo) :
  forall (done : list SimInfo) (acc : Schedule_map) (g g' : Rng)
         (res : Schedule_map),
    build_loop env cfg (_get_weather_type env) sims acc g = inr (res, g') ->
    NoDup (keys acc) ->
    (forall sid, In sid (keys acc) <-> In sid (map Game.sim_id done)) ->
    Forall (entry_built env cfg done) acc ->
    NoDup (keys res)
    /\ (forall sid, In sid (keys res) <-> In sid (map Game.sim_id (done ++ sims)))
    /\ Forall (entry_built env cfg (done ++ sims)) res.
Proof.
  induction sims as [| s sims IH]; intros done acc g g' res Hrun Hnd Hkeys Hall.
  - simpl in Hrun. inversion Hrun; subst. rewrite app_nil_r. auto.
  - simpl in Hrun. unfold bind in Hrun.
    destruct (for_each _ (time_blocks cfg) g) as [e | [bs g1]] eqn:Eb;
      [discriminate |].
    assert (Hbs : Forall2 (block_from env cfg s) (time_blocks cfg) bs).
    { eapply for_each_sound; [| exact Eb].
      intros t g0 b g0'. apply build_block_sound. }
    replace (done ++ s :: sims) with ((done ++ [s]) ++ sims)
      by (rewrite <- app_assoc; reflexivity).
    eapply IH; [exact Hrun | | |].
    + apply dict_set_keys_nodup. exact Hnd.
    + intros sid. rewrite dict_set_keys_in, map_app, in_app_iff, Hkeys; simpl.
      split; [intros [-> | H] | intros [H | [<- | []]]]; auto.
    + apply dict_set_entries.
      * eapply Forall_impl; [| exact Hall].
        intros kv. apply entry_built_more.
      * split; [reflexivity |]. exists s; simpl.
        split; [apply in_or_app; right; left; reflexivity | auto].
      * intros _ _. split; [reflexivity |]. exists s; simpl.
        split; [apply in_or_app; right; left; reflexivity | auto].
Qed.

Lemma build_loop_defined (env : Env) (cfg : NLConfig) (sims : list SimInfo) :
  Forall (fun s => Forall (template_ok env cfg s) (time_blocks cfg)) sims ->
  forall acc g,
  exists res g',
    build_loop env cfg (_get_weather_type env) sims acc g = inr (res, g').
Proof.
  induction 1 as [| s sims Hs _ IH]; intros acc g; simpl.
  - unfold ret. eauto.
  - unfold bind.
    destruct (for_each_defined
                (build_block env cfg (_get_weather_type env) s)
                (time_blocks cfg)) with (g := g) as (bs & g1 & Eb).
    { eapply Forall_impl; [| exact Hs].
      intros t Ht g0. apply build_block_defined. exact Ht. }
    rewrite Eb. apply IH.
Qed.

(** Biasing only adds to or updates the table: a template with at least
    one action of its own never hands the selector an empty table. *)
Lemma dict_set_nonempty (k : string) (v : float) (w : Weights) :
  dict_set String.eqb k v w <> [].
Proof.
  destruct w as [| [k' v'] w]; simpl; [discriminate |].
  destruct (String.eqb k k'); discriminate.
Qed.

Lemma add_deltas_nonempty (adds w : Weights) :
  w <> [] -> add_deltas adds w <> [].
Proof.
  unfold add_deltas. revert w.
  induction adds as [| [k v] adds IH]; intros w Hw; simpl; [exact Hw |].
  apply IH. apply dict_set_nonempty.
Qed.

Lemma biased_weights_nonempty (env : Env) (cfg : NLConfig)
    (wtype : option string) (s : SimInfo) (t : Template) :
  tpl_actions t <> [] -> biased_weights env cfg wtype s t <> [].
Proof.
  intros Hne. unfold biased_weights.
  assert (H1 : _apply_trait_bias cfg s (tpl_actions t) <> []).
  { unfold _apply_trait_bias. revert Hne. generalize (tpl_actions t).
    induction (trait_bias cfg) as [| [name adds] tb IH]; intros w Hw; simpl;
      [exact Hw |].
    apply IH. destruct (mem_str name (trait_names s)); [| exact Hw].
    apply add_deltas_nonempty. exact Hw. }
  assert (H2 : _apply_weather_bias cfg wtype
                 (_apply_trait_bias cfg s (tpl_actions t)) <> []).
  { unfold _apply_weather_bias. destruct wtype as [name |]; [| exact H1].
    destruct (if contains "RAIN" name then Some "Rain"
              else if contains "SNOW" name then Some "Snow" else None)
      as [key |]; [| exact H1].
    destruct (dict_get String.eqb key (weather_bias cfg)) as [[| a adds] |];
      try exact H1.
    apply add_deltas_nonempty. exact H1. }
  destruct (is_weekend env); [| exact H2].
  unfold _apply_weekend_bias. apply add_deltas_nonempty. exact H2.
Qed.







Lemma block_from_within (env : Env) (cfg : NLConfig) (s : SimInfo)
    (t : Template) (b : TimeBlock) :
  block_from env cfg s t b -> block_within env t b.
Proof.
  intros (hs & ms & h & m & lo & hi & H1 & H2 & H3 & H4 & H5 & H6 & H7 & _).
  exists hs, ms, h, m, lo, hi. repeat split; auto; lia.
Qed.

(** C5, as the code has it: every block of every schedule a build returns
    has the start [hh * 60 + mm] read from its template, which is in
    [0, 1440) when [0 <= hh < 24] and [0 <= mm < 60], and a duration within
    the template's range, both ends included, which is positive when the
    lower end of the range is. *)
Theorem build_for_sims_blocks_within (env : Env) (cfg : NLConfig)
    (sims : list SimInfo) (g g' : Rng) (schedules : Schedule_map) :
  build_for_sims env cfg sims g = inr (schedules, g') ->
  Forall (fun ds => Forall2 (block_within env) (time_blocks cfg) (blocks ds))
         (values schedules).
Proof.
  intros Hrun. unfold build_for_sims in Hrun.
  destruct (build_loop_sound env cfg sims [] [] g g' schedules Hrun)
    as (_ & _ & Hall); simpl; [constructor | tauto | constructor |].
  unfold values. apply Forall_forall. intros ds Hds.
  apply in_map_iff in Hds. destruct Hds as (kv & <- & Hkv).
  rewrite Forall_forall in Hall.
  destruct (Hall _ Hkv) as (_ & s & _ & _ & Hblocks).
  eapply Forall2_impl; [| exact Hblocks].
  intros t b. apply block_from_within.
Qed.

(** The theorem at the sample config. *)
Lemma build_for_sims_blocks_within_witness :
  Forall (fun ds =>
            Forall2 (block_within Sample.env) (time_blocks Sample.cfg)
                    (blocks ds))
         (values [(1, {| Schedules.sim_id := 1;
                         blocks := [ {| start_min := 480; duration_min := 30;
                                        action := "WALK";
                                        venue_tag := None |} ] |})]).
Proof.
  apply (build_for_sims_blocks_within Sample.env Sample.cfg [Sample.alice]
           [] []).
  reflexivity.
Defined.

(** C5 as stated fails: a start of ["24:30"] gives minute 1470 and a range
    [[0, 0]] gives a duration of 0. *)
Lemma block_outside_day :
  ~ (forall env cfg sims g g' schedules,
       build_for_sims env cfg sims g = inr (schedules, g') ->
       Forall (fun ds =>
                 Forall (fun b => 0 <= start_min b < 1440
                                  /\ 0 < duration_min b)
                        (blocks ds))
              (values schedules)).
Proof.
  intros H.
  specialize (H Sample.env Sample.cfg_late [Sample.alice] [] []
                [(1, {| Schedules.sim_id := 1;
                        blocks := [ {| start_min := 1470; duration_min := 0;
                                       action := "WALK";
                                       venue_tag := None |} ] |})]
                eq_refl).
  inversion H as [| ds rest Hds _]; subst.
  inversion Hds as [| b bs Hb _]; subst.
  simpl in Hb. lia.
Qed.

(** ** Failure of the selector *)

Lemma weighted_choice_empty (g : Rng) : weighted_choice [] g = inl IndexError.
Proof.
  unfold weighted_choice, choice; simpl.
  destruct (next_raw g) as [x g1].
  destruct (randbelow 0 x); reflexivity.
Qed.

Lemma build_block_empty_weights (env : Env) (cfg : NLConfig) (s : SimInfo)
    (t : Template) (g : Rng) :
  (exists start, time_str_to_minutes env (tpl_start t) = inr start) ->
  (exists lo hi,
      nth_error (tpl_duration_min t) 0 = Some lo
      /\ nth_error (tpl_duration_min t) 1 = Some hi
      /\ lo <= hi) ->
  biased_weights env cfg (_get_weather_type env) s t = [] ->
  build_block env cfg (_get_weather_type env) s t g = inl IndexError.
Proof.
  intros (start & Es) (lo & hi & Elo & Ehi & Hle) Hw.
  unfold build_block, bind, lift, index, ret.
  rewrite Es, Elo, Ehi; simpl.
  destruct (randint_defined lo hi g Hle) as (dur & g1 & Er). rewrite Er.
  rewrite Hw, weighted_choice_empty. reflexivity.
Qed.

Lemma for_each_raises {A B} (body : A -> Comp B) (xs1 xs2 : list A) (x : A)
    (e : Exn) :
  Forall (fun y => forall g, exists b g', body y g = inr (b, g')) xs1 ->
  (forall g, body x g = inl e) ->
  forall g, for_each body (xs1 ++ x :: xs2) g = inl e.
Proof.
  intros Hpre Hx. induction Hpre as [| y ys Hy _ IH]; intros g; simpl.
  - unfold bind. rewrite Hx. reflexivity.
  - unfold bind. destruct (Hy g) as (b & g1 & Eb). rewrite Eb.
    fold (@bind (list B) (list B)). unfold bind. rewrite IH. reflexivity.
Qed.

Lemma build_loop_raises (env : Env) (cfg : NLConfig)
    (sims1 sims2 : list SimInfo) (s : SimInfo) (e : Exn) :
  Forall (fun s' => Forall (template_ok env cfg s') (time_blocks cfg)) sims1 ->
  (forall g,
      for_each (build_block env cfg (_get_weather_type env) s)
               (time_blocks cfg) g = inl e) ->
  forall acc g,
    build_loop env cfg (_get_weather_type env) (sims1 ++ s :: sims2) acc g
    = inl e.
Proof.
  intros Hpre Hs. induction Hpre as [| s' ss Hs' _ IH]; intros acc g; simpl.
  - unfold bind. rewrite Hs. reflexivity.
  - unfold bind.
    destruct (for_each_defined
                (build_block env cfg (_get_weather_type env) s')
                (time_blocks cfg)) with (g := g) as (bs & g1 & Eb).
    { eapply Forall_impl; [| exact Hs'].
      intros t Ht g0. apply build_block_defined. exact Ht. }
    rewrite Eb. apply IH.
Qed.

(** C2, as the code has it: on an empty weight table the selector raises
    (the [IndexError] of [random.choice]), and [build_for_sims] does not
    contain it. When the sims before [s] build, the templates before [t]
    build for [s], and the biased table of [t] for [s] is empty, the whole
    call raises that exception, whatever sims follow: no schedule is
    returned for any participant. *)
Theorem empty_weights_abort_batch (env : Env) (cfg : NLConfig)
    (sims1 sims2 : list SimInfo) (s : SimInfo)
    (ts1 ts2 : list Template) (t : Template) (g : Rng) :
  time_blocks cfg = ts1 ++ t :: ts2 ->
  Forall (fun s' => Forall (template_ok env cfg s') (time_blocks cfg)) sims1 ->
  Forall (template_ok env cfg s) ts1 ->
  (exists start, time_str_to_minutes env (tpl_start t) = inr start) ->
  (exists lo hi,
      nth_error (tpl_duration_min t) 0 = Some lo
      /\ nth_error (tpl_duration_min t) 1 = Some hi
      /\ lo <= hi) ->
  biased_weights env cfg (_get_weather_type env) s t = [] ->
  weighted_choice (biased_weights env cfg (_get_weather_type env) s t) g
    = inl IndexError
  /\ build_for_sims env cfg (sims1 ++ s :: sims2) g = inl IndexError.
Proof.
  intros Hts Hsims1 Hts1 Hstart Hrange Hw. split.
  - rewrite Hw. apply weighted_choice_empty.
  - unfold build_for_sims. apply build_loop_raises; [exact Hsims1 |].
    rewrite Hts. apply for_each_raises.
    + eapply Forall_impl; [| exact Hts1].
      intros t' Ht' g0. apply build_block_defined. exact Ht'.
    + intros g0. apply build_block_empty_weights; assumption.
Qed.

(** The theorem at the config whose only template has no action: the sim
    with the ["ACTIVE"] trait builds, the sim without it makes the call
    raise. *)
Lemma empty_weights_abort_batch_witness :
  build_for_sims Sample.env Sample.cfg_bare [Sample.alice; Sample.bob] []
  = inl IndexError.
Proof.
  refine (proj2 (empty_weights_abort_batch Sample.env Sample.cfg_bare
                   [Sample.alice] [] Sample.bob [] [] Sample.bare []
                   eq_refl _ _ _ _ eq_refl)).
  - repeat constructor; try (eexists; reflexivity);
      try (eexists; eexists; repeat split; try reflexivity; simpl; lia);
      discriminate.
  - constructor.
  - eexists; reflexivity.
  - eexists; eexists; repeat split; try reflexivity; simpl; lia.
Defined.

(** C2 as stated fails: the first sim builds on its own, the table of the
    second is empty, and the batch of the two returns no schedule at all,
    not even the first sim's. *)
Lemma failure_not_contained :
  build_for_sims Sample.env Sample.cfg_bare [Sample.alice] [] =
    inr ([(1, {| Schedules.sim_id := 1;
                 blocks := [ {| start_min := 480; duration_min := 30;
                                action := "JOG"; venue_tag := None |} ] |})],
         [])
  /\ biased_weights Sample.env Sample.cfg_bare
       (_get_weather_type Sample.env) Sample.bob Sample.bare = []
  /\ build_for_sims Sample.env Sample.cfg_bare [Sample.alice; Sample.bob] []
     = inl IndexError
  /\ ~ (exists schedules g',
          build_for_sims Sample.env Sample.cfg_bare
            [Sample.alice; Sample.bob] [] = inr (schedules, g')
          /\ In 1 (keys schedules)).
Proof.
  split; [reflexivity |]. split; [reflexivity |]. split; [reflexivity |].
  intros (schedules & g' & Hrun & _). discriminate Hrun.
Qed.

(** ** Activation *)

Lemma expected_alarms_length (now_min : Z) (scheds : list DailySchedule) :
  List.length (expected_alarms now_min scheds) =
  (2 * List.length (flat_map blocks scheds))%nat.
Proof.
  unfold expected_alarms, schedule_alarms.
  induction scheds as [| ds rest IH]; simpl; [reflexivity |].
  rewrite !length_app, IH.
  assert (E : forall sid bs,
             List.length (flat_map (block_alarms now_min sid) bs) =
             (2 * List.length bs)%nat).
  { intros sid bs. induction bs as [| b bs IHb]; simpl; [reflexivity |].
    rewrite IHb. lia. }
  rewrite E. lia.
Qed.

(** C6, as the code has it: [_schedule_alarms] registers, for every block
    of every schedule and in that order, exactly two alarms that do not
    repeat and carry [(sim_id, block)]: a Start alarm at
    [max(0, start_min - now_min)] and an End alarm at that delay plus
    [duration_min]. Their handles are appended to the director's list and
    nothing else changes. For a block whose duration is not negative the
    Start delay is at most the End delay. *)
Theorem _schedule_alarms_two_per_block (env : Env) (host : Host)
    (d : NeighborhoodDirector) :
  exists host' d',
    _schedule_alarms env host d = (host', d')
    /\ live host' =
       live host ++
       number_from (next_handle host)
         (expected_alarms (get_today_minutes env) (values (_schedules d)))
    /\ _alarms d' =
       _alarms d ++
       seq (next_handle host)
         (2 * List.length (flat_map blocks (values (_schedules d))))
    /\ _schedules d' = _schedules d
    /\ cfg d' = cfg d
    /\ cancels host' = cancels host
    /\ Forall
         (fun ds =>
            Forall
              (fun b =>
                 exists s e,
                   block_alarms (get_today_minutes env)
                                (Schedules.sim_id ds) b = [s; e]
                   /\ delay s = Z.max 0 (start_min b - get_today_minutes env)
                   /\ callback s = Start /\ repeating s = false
                   /\ data s = (Schedules.sim_id ds, b)
                   /\ delay e = delay s + duration_min b
                   /\ callback e = End /\ repeating e = false
                   /\ data e = (Schedules.sim_id ds, b)
                   /\ (0 <= duration_min b -> delay s <= delay e))
              (blocks ds))
         (values (_schedules d)).
Proof.
  rewrite _schedule_alarms_register. unfold register; simpl.
  eexists. eexists. split; [reflexivity |]. simpl.
  rewrite expected_alarms_length.
  repeat split.
  apply Forall_forall. intros ds _. apply Forall_forall. intros b _.
  eexists. eexists. split; [reflexivity |]. simpl.
  repeat split. lia.
Qed.

(** The scenario of the sample config at 07:00: the block starts at minute
    480 and lasts 30, so each sim gets a Start alarm in 60 minutes and an
    End alarm in 90. *)
Example morning_alarms :
  Sample.armed
    (start_for_today Sample.env Sample.host0 (init Sample.cfg) [])
  = [ (0%nat, 2, Start, 60); (1%nat, 2, End, 90);
      (2%nat, 1, Start, 60); (3%nat, 1, End, 90) ].
Proof. reflexivity. Qed.

(** C6 as stated fails: a template range of [[-5, -5]] builds a block of
    duration -5, whose End alarm (55 minutes) comes before its Start alarm
    (60 minutes). *)
Lemma end_alarm_before_start_alarm :
  Sample.armed
    (start_for_today Sample.env Sample.host0 (init Sample.cfg_backwards) [])
  = [ (0%nat, 2, Start, 60); (1%nat, 2, End, 55);
      (2%nat, 1, Start, 60); (3%nat, 1, End, 55) ]
  /\ ~ (60 <= 55).
Proof. split; [reflexivity | lia]. Qed.

Lemma number_from_handles (n : nat) (l : list Alarm) :
  map fst (number_from n l) = seq n (List.length l).
Proof.
  unfold number_from. revert n.
  induction l as [| a l IH]; intros n; simpl; [reflexivity |].
  f_equal. apply IH.
Qed.

(** An activation that completes is a build followed by
    [_schedule_alarms] on the director holding the new schedules and the
    old handle list. *)
Lemma start_for_today_inv (env : Env) (host host' : Host)
    (d d' : NeighborhoodDirector) (g g' : Rng) :
  start_for_today env host d g = inr (host', d', g') ->
  exists schedules,
    _schedule_alarms env host
      {| cfg := cfg d; _schedules := schedules; _alarms := _alarms d |}
    = (host', d').
Proof.
  unfold start_for_today, bind, ret.
  destruct (select_participant_sims env _ g) as [e | [sims g1]];
    [discriminate |].
  destruct (build_for_sims env (cfg d) sims g1) as [e | [schedules g2]];
    [discriminate |].
  intros H. inversion H. exists schedules. reflexivity.
Qed.

Lemma start_for_today_appends (env : Env) (host host' : Host)
    (d d' : NeighborhoodDirector) (g g' : Rng) :
  start_for_today env host d g = inr (host', d', g') ->
  exists n,
    _alarms d' = _alarms d ++ seq (next_handle host) n
    /\ map fst (live host') = map fst (live host) ++ seq (next_handle host) n
    /\ cancels host' = cancels host
    /\ next_handle host' = (next_handle host + n)%nat.
Proof.
  intros H. destruct (start_for_today_inv _ _ _ _ _ _ _ H) as (schedules & E).
  rewrite _schedule_alarms_register in E. unfold register in E; simpl in E.
  inversion E; subst; clear E. simpl.
  eexists. split; [reflexivity |].
  rewrite map_app, number_from_handles. auto.
Qed.

(** An activation that completes went through its three steps: the
    selection, the build for the sims selected, and [_schedule_alarms] on
    the director that holds the schedules just built and the handle list as
    it was. *)
Lemma start_for_today_steps (env : Env) (host host' : Host)
    (d d' : NeighborhoodDirector) (g g' : Rng) :
  start_for_today env host d g = inr (host', d', g') ->
  exists sims g1,
    select_participant_sims env (participant_count (cfg d)) g = inr (sims, g1)
    /\ build_for_sims env (cfg d) sims g1 = inr (_schedules d', g')
    /\ _schedule_alarms env host
         {| cfg := cfg d; _schedules := _schedules d'; _alarms := _alarms d |}
       = (host', d').
Proof.
  unfold start_for_today, bind, ret.
  destruct (select_participant_sims env _ g) as [e | [sims g1]];
    [discriminate |].
  destruct (build_for_sims env (cfg d) sims g1) as [e | [schedules g2]]
    eqn:Ebuild; [discriminate |].
  intros H. inversion H as [[E Hg]]. exists sims, g1.
  assert (Hs : _schedules d' = schedules).
  { rewrite _schedule_alarms_register in E. unfold register in E.
    inversion E. reflexivity. }
  rewrite Hs, <- Hg. rewrite E. auto.
Qed.

Lemma still_live (host host' : Host) (extra : list (nat * Alarm)) (h : nat) :
  live host' = live host ++ extra -> is_live host h -> is_live host' h.
Proof.
  unfold is_live. intros -> H. rewrite map_app. apply in_or_app. left. exact H.
Qed.

(** C1, as the code has it: [start_for_today] cancels nothing and appends.
    When it completes on a director that already holds handles, the
    schedule map is replaced by the one just built for the sims just
    selected; the handle list is the earlier list followed by the handles of
    the new alarms, two per block of the new schedules; the host holds its
    earlier alarms followed by the new ones; every earlier handle that was
    live is still live, and no [cancel_alarm] call was made: alarms stack.
    Only with [stop_all] in between, as [_on_zone_unload] does, is no
    handle of the earlier activation left in the handle list or live in the
    host after the new activation. *)
Theorem start_for_today_stacks (env : Env) (host : Host)
    (d : NeighborhoodDirector) (g : Rng) :
  issued host d ->
  (forall host' d' g',
      start_for_today env host d g = inr (host', d', g') ->
      exists sims g1,
        select_participant_sims env (participant_count (cfg d)) g
        = inr (sims, g1)
        /\ build_for_sims env (cfg d) sims g1 = inr (_schedules d', g')
        /\ cfg d' = cfg d
        /\ _alarms d' =
           _alarms d ++
           seq (next_handle host)
             (2 * List.length (flat_map blocks (values (_schedules d'))))
        /\ live host' =
           live host ++
           number_from (next_handle host)
             (expected_alarms (get_today_minutes env)
                (values (_schedules d')))
        /\ cancels host' = cancels host
        /\ issued host' d'
        /\ Forall (fun h => is_live host h -> is_live host' h) (_alarms d))
  /\ (forall host' d' g',
        start_for_today env (fst (stop_all host d)) (snd (stop_all host d)) g
        = inr (host', d', g') ->
        Forall (fun h => ~ In h (_alarms d') /\ ~ is_live host' h) (_alarms d)).
Proof.
  intros Hissued. split.
  - intros host' d' g' Hrun.
    destruct (start_for_today_steps _ _ _ _ _ _ _ Hrun)
      as (sims & g1 & Hsel & Hbuild & Harm).
    exists sims, g1. split; [exact Hsel |]. split; [exact Hbuild |].
    rewrite _schedule_alarms_register in Harm. unfold register in Harm.
    cbn [fst snd cfg _schedules _alarms] in Harm.
    rewrite expected_alarms_length in Harm.
    injection Harm as Hhost Hd.
    assert (Hc : cfg d' = cfg d) by (rewrite <- Hd; reflexivity).
    assert (Hal : _alarms d' =
                  _alarms d ++
                  seq (next_handle host)
                    (2 * List.length
                           (flat_map blocks (values (_schedules d')))))
      by (rewrite <- Hd; reflexivity).
    subst host'. cbn [live cancels next_handle].
    split; [exact Hc |]. split; [exact Hal |].
    split; [reflexivity |]. split; [reflexivity |]. split.
    + unfold issued. cbn [next_handle]. rewrite Hal.
      apply Forall_app. split.
      * eapply Forall_impl; [| exact Hissued]. simpl. intros h Hh. lia.
      * apply Forall_forall. intros h Hh. apply in_seq in Hh. lia.
    + apply Forall_forall. intros h _.
      apply still_live with (extra := number_from (next_handle host)
        (expected_alarms (get_today_minutes env) (values (_schedules d')))).
      reflexivity.
  - intros host' d' g' Hrun.
    destruct (start_for_today_appends _ _ _ _ _ _ _ Hrun)
      as (n & Hal & Hlive & _ & _).
    unfold stop_all in Hal, Hlive. rewrite cancel_all in Hal, Hlive.
    simpl in Hal, Hlive.
    apply Forall_forall. intros h Hh.
    assert (Hlt : (h < next_handle host)%nat).
    { unfold issued in Hissued. rewrite Forall_forall in Hissued. auto. }
    split.
    + rewrite Hal. intros Hin. apply in_seq in Hin. lia.
    + unfold is_live. rewrite Hlive, in_app_iff. intros [Hin | Hin].
      * exact (spared_not_live _ _ _ Hh Hin).
      * apply in_seq in Hin. lia.
Qed.

(** The theorem at the state a first activation of the sample config
    leaves (handles 0 to 3): activating again puts the handles 4 to 7 behind
    them and keeps them live, activating after [stop_all] leaves none of
    them. *)
Lemma start_for_today_stacks_witness :
  (_alarms (snd Sample.twice) = [0; 1; 2; 3; 4; 5; 6; 7]%nat
   /\ map fst (live (fst Sample.twice)) = [0; 1; 2; 3; 4; 5; 6; 7]%nat
   /\ Forall (fun h => is_live (fst Sample.once) h ->
                       is_live (fst Sample.twice) h)
             (_alarms (snd Sample.once)))
  /\ Forall (fun h => ~ In h (_alarms (snd Sample.restarted))
                      /\ ~ is_live (fst Sample.restarted) h)
            (_alarms (snd Sample.once)).
Proof.
  assert (Hissued : issued (fst Sample.once) (snd Sample.once)).
  { unfold issued. simpl. repeat constructor. }
  destruct (start_for_today_stacks Sample.env (fst Sample.once)
              (snd Sample.once) [] Hissued) as [Hstack Hrestart].
  split.
  - destruct (Hstack (fst Sample.twice) (snd Sample.twice) [] eq_refl)
      as (sims & g1 & _ & _ & _ & Hal & Hlive & _ & _ & Hkept).
    split; [rewrite Hal; reflexivity |].
    split; [rewrite Hlive; reflexivity | exact Hkept].
  - exact (Hrestart (fst Sample.restarted) (snd Sample.restarted) []
                    eq_refl).
Defined.

(** C1 as stated fails: after two activations in a row the handles 0 to 3
    of the first are still in the handle list, and still live. *)
Lemma second_activation_stacks :
  ~ (forall env host d g host1 d1 g1 env2 host2 d2 g2,
       start_for_today env host d g = inr (host1, d1, g1) ->
       start_for_today env2 host1 d1 g1 = inr (host2, d2, g2) ->
       Forall (fun h => ~ (In h (_alarms d2) /\ is_live host2 h))
              (_alarms d1)).
Proof.
  intros H.
  specialize (H Sample.env Sample.host0 (init Sample.cfg) []
                (fst Sample.once) (snd Sample.once) []
                Sample.env (fst Sample.twice) (snd Sample.twice) []
                eq_refl eq_refl).
  assert (E : _alarms (snd Sample.once) = [0; 1; 2; 3]%nat) by reflexivity.
  rewrite E in H. inversion H as [| h rest Hh _]; subst.
  apply Hh. split.
  - left. reflexivity.
  - left. reflexivity.
Qed.

(** ** Alarm callbacks *)

Lemma post_start_notifies (c : NLConfig) (si : SimInfo) (b : TimeBlock) :
  Forall is_notification (post_start c si b).
Proof.
  unfold post_start. destruct (news_enabled c); simpl; repeat constructor.
Qed.

Lemma execute_moves (si : SimInfo) (b : TimeBlock) :
  Forall is_move (execute si b).
Proof.
  unfold execute. destruct (get_sim_instance si); [| constructor].
  repeat match goal with
         | |- context [if ?c then _ else _] => destruct c
         end; repeat constructor.
Qed.

(** C8, as the code has it: when the sim info of the participant does not
    resolve, [_on_block_start] does nothing. When it resolves, the handler
    calls [post_start] and then [execute]: what the notification shows
    comes before anything the executor does. The guard is on the sim info,
    not on the instance: for a sim whose info resolves and that has no live
    instance, the notification is still shown when news is enabled, and the
    executor does nothing. *)
Theorem _on_block_start_notifies_then_executes (env : Env)
    (d : NeighborhoodDirector) (sid : Z) (b : TimeBlock) :
  (get_sim_info env sid = None -> _on_block_start env d (sid, b) = [])
  /\ (forall si,
        get_sim_info env sid = Some si ->
        _on_block_start env d (sid, b) =
          post_start (cfg d) si b ++ execute si b
        /\ Forall is_notification (post_start (cfg d) si b)
        /\ Forall is_move (execute si b)
        /\ (news_enabled (cfg d) = true ->
            post_start (cfg d) si b = [Notified Start (Game.sim_id si) b])
        /\ (news_enabled (cfg d) = false -> post_start (cfg d) si b = [])
        /\ (get_sim_instance si = None -> execute si b = [])).
Proof.
  unfold _on_block_start. split.
  - intros ->. reflexivity.
  - intros si ->. split; [reflexivity |].
    split; [apply post_start_notifies |].
    split; [apply execute_moves |].
    unfold post_start, execute.
    split; [intros ->; reflexivity |].
    split; [intros ->; reflexivity |].
    intros ->. reflexivity.
Qed.

(** C8 as stated fails: a participant whose sim info resolves and who has
    no live instance still gets the start notification. *)
Lemma notification_without_instance :
  ~ (forall env d sid b,
       live_instance env sid = None -> _on_block_start env d (sid, b) = []).
Proof.
  intros H.
  specialize (H Sample.env (init Sample.cfg) 1
                {| start_min := 480; duration_min := 30;
                   action := "WALK"; venue_tag := None |}
                eq_refl).
  discriminate H.
Qed.

(** An instanced sim is notified, then moved; a sim that is known and not
    instanced is notified only; an unknown id does nothing. *)
Example start_alarm_fires :
  _on_block_start Sample.env_with_carol (init Sample.cfg)
    (3, Sample.walk_block)
  = [Notified Start 3 Sample.walk_block; Moved 3 (WalkOrJog false)]
  /\ _on_block_start Sample.env_with_carol (init Sample.cfg)
       (1, Sample.walk_block)
     = [Notified Start 1 Sample.walk_block]
  /\ _on_block_start Sample.env_with_carol (init Sample.cfg)
       (9, Sample.walk_block)
     = [].
Proof. repeat split. Qed.

(** ** Loading the configuration *)

Lemma find_data_absent (fs : FileSystem ConfigData) (ps : list string) :
  Forall (fun p => exists_ fs p = false) ps ->
  find_data fs ps = (map Probed ps, ok Null).
Proof.
  induction 1 as [| p ps Hp _ IH]; simpl; [reflexivity |].
  rewrite Hp, IH. reflexivity.
Qed.

Lemma load_all_cached (c : ConfigObj) (n : nat) :
  forall fss,
    load_all fss {| _cached := Some c; next_oid := n |} =
    map (fun _ => ([], inr c)) fss.
Proof.
  induction fss as [| fs rest IH]; simpl; [reflexivity |].
  rewrite IH. reflexivity.
Qed.

(** C9: a first [load] (empty cache) that finds none of its candidate
    paths only probes them, opens nothing, and returns a new instance built
    from the fallback literal: participant count 8, no time block, news
    enabled (and empty bias tables, debug logging on). It stores that
    instance in the class. Every later [load], whatever the files hold by
    then, returns that same instance (same identity, same fields) without
    any file-system access and leaves the class state as it is. *)
Theorem load_default_then_cached (fs : FileSystem ConfigData)
    (cls : ClassState) :
  _cached cls = None ->
  Forall (fun p => exists_ fs p = false) (candidates fs) ->
  exists c cls',
    load fs cls = (map Probed (candidates fs), inr (c, cls'))
    /\ participant_count (obj c) = 8
    /\ time_blocks (obj c) = []
    /\ news_enabled (obj c) = true
    /\ trait_bias (obj c) = [] /\ weather_bias (obj c) = []
    /\ weekend_bias (obj c) = [] /\ debug_logging (obj c) = true
    /\ oid c = next_oid cls
    /\ _cached cls' = Some c
    /\ (forall fs', load fs' cls' = ([], inr (c, cls')))
    /\ (forall fss, load_all fss cls' = map (fun _ => ([], inr c)) fss).
Proof.
  intros Hnone Habsent. unfold load. rewrite Hnone.
  rewrite (find_data_absent fs _ Habsent). simpl.
  eexists. eexists. split; [reflexivity |]. simpl.
  repeat split. intros fss. apply load_all_cached.
Qed.

(** The theorem on a disk without config file: the two candidate paths are
    probed, and a later [load] ignores a file that has appeared since. *)
Lemma load_default_then_cached_witness :
  exists c cls',
    load Sample.no_files Sample.fresh_class =
      ([ Probed "/Mods/NeighborhoodLife/neighborhood_life_resources/config.json";
         Probed "neighborhood_life_resources/config.json" ],
       inr (c, cls'))
    /\ participant_count (obj c) = 8
    /\ time_blocks (obj c) = []
    /\ news_enabled (obj c) = true
    /\ load Sample.with_file cls' = ([], inr (c, cls')).
Proof.
  destruct (load_default_then_cached Sample.no_files Sample.fresh_class)
    as (c & cls' & Hload & Hcount & Hblocks & Hnews & _ & _ & _ & _ & _ & _
        & Hlater & _).
  - reflexivity.
  - repeat constructor.
  - exists c, cls'. split; [exact Hload |]. auto.
Defined.

(** ** The zone handlers *)

(** Two zone loads without an unload reuse the singleton
    ([ensure_singleton] keeps the old director) and activate it again: the
    four alarms of the first load stay armed beside the four of the second. *)
Example zone_load_twice_stacks :
  Sample.handles_of Sample.load_load =
  ([0; 1; 2; 3; 4; 5; 6; 7]%nat, [0; 1; 2; 3; 4; 5; 6; 7]%nat).
Proof. reflexivity. Qed.

(** With the unload between the two loads only the second load's alarms are
    armed. *)
Example zone_unload_then_load_replaces :
  Sample.handles_of Sample.load_unload_load =
  ([4; 5; 6; 7]%nat, [4; 5; 6; 7]%nat).
Proof. reflexivity. Qed.

(* ===================================================================== *)
(** * Further properties of the package                                   *)
(* ===================================================================== *)

(** ** The selector on tables with a positive weight *)

(** When the running sum of the whole list reaches [r], the loop stops at
    some entry. *)
Lemma walk_reaches (r : float) (items : list (string * float)) :
  forall upto,
    items <> [] ->
    SFleb r (running upto items) = true ->
    exists k, walk r upto items = Some k.
Proof.
  induction items as [| [k v] rest IH]; intros upto Hne Hsum; [congruence |].
  simpl. destruct (fge (fadd upto v) r) eqn:E; [eauto |].
  destruct rest as [| kv rest'].
  - unfold running in Hsum. simpl in Hsum.
    unfold fge, fle, fadd, prec, emax in E. congruence.
  - apply IH; [discriminate | exact Hsum].
Qed.

(** X1: when some weight of the table is strictly positive,
    [weighted_choice] returns a key that carries a strictly positive weight
    in the table: an action whose weight is zero, negative or nan is never
    chosen. When the draw [r] does not exceed the total of the positive
    weights, that key is the first one whose running sum reaches [r]: the
    fallback [items[-1][0]] after the loop is used only for a draw that is
    above the total or nan. *)
Theorem weighted_choice_positive_only (weights : Weights) (g : Rng) :
  (exists k0 v0, In (k0, v0) weights /\ SFltb (S754_zero false) v0 = true) ->
  exists k v g',
    weighted_choice weights g = inr (k, g')
    /\ In (k, v) weights
    /\ SFltb (S754_zero false) v = true
    /\ (SFleb (draw weights g) (total_weight (positives weights)) = true ->
        first_reaching (draw weights g) (positives weights) k).
Proof.
  intros (k0 & v0 & Hin0 & Hpos0).
  assert (Hne : positives weights <> []).
  { intros E. assert (Hin : In (k0, v0) (positives weights)).
    { apply positives_in. split; assumption. }
    rewrite E in Hin. exact Hin. }
  destruct (weighted_choice_weighted weights g Hne) as (k & Hrun & Hin & Hk).
  unfold keys in Hin. apply in_map_iff in Hin.
  destruct Hin as ([k1 v] & Hfst & Hin). simpl in Hfst. subst k1.
  apply positives_in in Hin. destruct Hin as [Hw Hv].
  exists k, v, (snd (next_raw g)). split; [exact Hrun |].
  split; [exact Hw |]. split; [exact Hv |].
  intros Hle. destruct Hk as [Hfirst | [Hnone _]]; [exact Hfirst |].
  exfalso.
  destruct (walk_reaches (draw weights g) (positives weights)
              (S754_zero false) Hne Hle) as (k2 & Hwalk).
  destruct (walk_first _ _ _ _ Hwalk) as (pre & v2 & post & Hsplit & Hhit & _).
  rewrite (Hnone pre k2 v2 post Hsplit) in Hhit. discriminate Hhit.
Qed.

(** The theorem on a table with one positive and two non-positive weights. *)
Lemma weighted_choice_positive_only_witness :
  exists k v g',
    weighted_choice
      [("JOG", float_of_Z (-2)); ("WALK", float_of_Z 3);
       ("HOME_IDLE", fzero)] [7%N]
    = inr (k, g')
    /\ In (k, v)
          [("JOG", float_of_Z (-2)); ("WALK", float_of_Z 3);
           ("HOME_IDLE", fzero)]
    /\ SFltb (S754_zero false) v = true.
Proof.
  destruct (weighted_choice_positive_only
              [("JOG", float_of_Z (-2)); ("WALK", float_of_Z 3);
               ("HOME_IDLE", fzero)] [7%N])
    as (k & v & g' & Hrun & Hin & Hv & _).
  - exists "WALK", (float_of_Z 3).
    split; [right; left; reflexivity | reflexivity].
  - exists k, v, g'. auto.
Defined.

(** X2: when exactly one entry of the table has a strictly positive
    weight, [weighted_choice] returns its key whatever the random source
    gives. *)
Theorem weighted_choice_single_positive (weights : Weights) (k : string)
    (v : float) (g : Rng) :
  filter (fun kv => fgt (snd kv) fzero) weights = [(k, v)] ->
  exists g', weighted_choice weights g = inr (k, g').
Proof.
  intros Hone. unfold weighted_choice, positive_items.
  rewrite Hone.
  cbn [map fst snd]. unfold bind. rewrite uniform_spread.
  cbn [walk last fst]. unfold ret.
  match goal with
  | |- context [if ?c then _ else _] => destruct c
  end; eauto.
Qed.

(** The theorem on a table whose other actions were biased down to zero
    and below. *)
Lemma weighted_choice_single_positive_witness :
  exists g',
    weighted_choice
      [("JOG", float_of_Z (-2)); ("WALK", float_of_Z 3);
       ("HOME_IDLE", fzero)]
      [123456789%N]
    = inr ("WALK", g').
Proof.
  apply (weighted_choice_single_positive
           [("JOG", float_of_Z (-2)); ("WALK", float_of_Z 3);
            ("HOME_IDLE", fzero)] "WALK" (float_of_Z 3)).
  reflexivity.
Defined.

(** ** Bias layers *)

Section WeightDict.
Implicit Types (w adds : Weights) (k : string) (v : float).

Lemma weights_get_set_same k v w :
  dict_get String.eqb k (dict_set String.eqb k v w) = Some v.
Proof.
  induction w as [| [k' v'] w IH]; simpl.
  - rewrite String.eqb_refl. reflexivity.
  - destruct (String.eqb_spec k k') as [-> | Hne]; simpl.
    + rewrite String.eqb_refl. reflexivity.
    + destruct (String.eqb_spec k k'); [congruence | exact IH].
Qed.

Lemma weights_get_set_other k k' v w :
  k <> k' ->
  dict_get String.eqb k' (dict_set String.eqb k v w) =
  dict_get String.eqb k' w.
Proof.
  intros Hne. induction w as [| [k0 v0] w IH]; simpl.
  - destruct (String.eqb_spec k' k); [congruence | reflexivity].
  - destruct (String.eqb_spec k k0) as [-> | Hk]; simpl.
    + destruct (String.eqb_spec k' k0); [congruence | reflexivity].
    + destruct (String.eqb_spec k' k0); [reflexivity | exact IH].
Qed.

Lemma add_deltas_step k v adds w :
  add_deltas ((k, v) :: adds) w =
  add_deltas adds
    (dict_set String.eqb k
       (fadd (get_or (dict_get String.eqb k w) fzero) v) w).
Proof. reflexivity. Qed.

Lemma add_deltas_untouched adds :
  forall w k,
    ~ In k (keys adds) ->
    dict_get String.eqb k (add_deltas adds w) = dict_get String.eqb k w.
Proof.
  induction adds as [| [k0 v0] adds IH]; intros w k Hk; [reflexivity |].
  rewrite add_deltas_step, IH.
  - apply weights_get_set_other. intros ->. apply Hk. left. reflexivity.
  - intros Hin. apply Hk. right. exact Hin.
Qed.

Lemma add_deltas_added adds :
  forall w k delta,
    NoDup (keys adds) ->
    In (k, delta) adds ->
    dict_get String.eqb k (add_deltas adds w) =
    Some (fadd (get_or (dict_get String.eqb k w) fzero) delta).
Proof.
  induction adds as [| [k0 v0] adds IH]; intros w k delta Hnd Hin;
    [destruct Hin |].
  simpl in Hnd. inversion Hnd as [| ? ? Hfresh Hnd']; subst.
  rewrite add_deltas_step. destruct Hin as [E | Hin].
  - inversion E; subst.
    rewrite add_deltas_untouched by exact Hfresh.
    apply weights_get_set_same.
  - assert (Hne : k0 <> k).
    { intros ->. apply Hfresh. unfold keys.
      change k with (fst (k, delta)). apply in_map. exact Hin. }
    rewrite (IH _ k delta Hnd' Hin).
    rewrite weights_get_set_other by exact Hne. reflexivity.
Qed.

End WeightDict.

(** X3: a bias layer is additive. After the layer is applied, an action
    the layer mentions has its previous weight, or 0.0 when the table did
    not have it, plus the layer's delta; an action the layer does not
    mention keeps what it had, and stays absent if it was absent. (The keys
    of a layer are distinct, as those of a JSON object are.) *)
Theorem add_deltas_is_additive (adds weights : Weights) :
  NoDup (keys adds) ->
  (forall k delta,
      In (k, delta) adds ->
      dict_get String.eqb k (add_deltas adds weights) =
      Some (fadd (get_or (dict_get String.eqb k weights) fzero) delta))
  /\ (forall k,
        ~ In k (keys adds) ->
        dict_get String.eqb k (add_deltas adds weights) =
        dict_get String.eqb k weights).
Proof.
  intros Hnd. split.
  - intros k delta Hin. apply add_deltas_added; assumption.
  - intros k Hk. apply add_deltas_untouched. exact Hk.
Qed.

(** The theorem on base weights [{"WALK": 1.0, "JOG": 1.0}] and the layer
    [{"JOG": 5.0, "SWIM": 2.0}]: JOG becomes 1.0 + 5.0, SWIM is inserted at
    0.0 + 2.0, WALK keeps 1.0. *)
Lemma add_deltas_is_additive_witness :
  dict_get String.eqb "JOG"
    (add_deltas [("JOG", float_of_Z 5); ("SWIM", float_of_Z 2)]
                [("WALK", float_of_Z 1); ("JOG", float_of_Z 1)])
  = Some (fadd (float_of_Z 1) (float_of_Z 5))
  /\ dict_get String.eqb "SWIM"
       (add_deltas [("JOG", float_of_Z 5); ("SWIM", float_of_Z 2)]
                   [("WALK", float_of_Z 1); ("JOG", float_of_Z 1)])
     = Some (fadd fzero (float_of_Z 2))
  /\ dict_get String.eqb "WALK"
       (add_deltas [("JOG", float_of_Z 5); ("SWIM", float_of_Z 2)]
                   [("WALK", float_of_Z 1); ("JOG", float_of_Z 1)])
     = Some (float_of_Z 1).
Proof.
  assert (Hnd : NoDup (keys [("JOG", float_of_Z 5); ("SWIM", float_of_Z 2)])).
  { repeat constructor; simpl; intuition discriminate. }
  destruct (add_deltas_is_additive
              [("JOG", float_of_Z 5); ("SWIM", float_of_Z 2)]
              [("WALK", float_of_Z 1); ("JOG", float_of_Z 1)] Hnd)
    as [Hadd Hkeep].
  split; [| split].
  - apply (Hadd "JOG" (float_of_Z 5)). left. reflexivity.
  - apply (Hadd "SWIM" (float_of_Z 2)). right. left. reflexivity.
  - apply (Hkeep "WALK"). simpl. intuition discriminate.
Defined.

Lemma mem_str_in (k : string) (l : list string) :
  mem_str k l = true <-> In k l.
Proof.
  unfold mem_str. rewrite existsb_exists. split.
  - intros (x & Hin & E). apply String.eqb_eq in E. subst. exact Hin.
  - intros Hin. exists k. split; [exact Hin | apply String.eqb_refl].
Qed.

Lemma dict_set_new_key (k : string) (v : float) (w : Weights) :
  keys (dict_set String.eqb k v w) =
  keys w ++ (if mem_str k (keys w) then [] else [k]).
Proof.
  unfold keys, mem_str. induction w as [| [k' v'] w IH]; simpl; [reflexivity |].
  destruct (String.eqb k k'); simpl.
  - rewrite app_nil_r. reflexivity.
  - rewrite IH. reflexivity.
Qed.

Lemma extends_refl (w : Weights) : extends w w [].
Proof.
  exists []. split; [rewrite app_nil_r; reflexivity |].
  split; [constructor |]. intros k. simpl. tauto.
Qed.

Lemma extends_trans (w w' w'' : Weights) (ks1 ks2 : list string) :
  extends w w' ks1 -> extends w' w'' ks2 -> extends w w'' (ks1 ++ ks2).
Proof.
  intros (e1 & K1 & N1 & M1) (e2 & K2 & N2 & M2).
  exists (e1 ++ e2). split; [rewrite K2, K1, app_assoc; reflexivity |].
  split.
  - apply NoDup_app; [exact N1 | exact N2 |].
    intros k H1 H2. apply M2 in H2. destruct H2 as [_ H2].
    apply H2. rewrite K1. apply in_or_app. right. exact H1.
  - intros k. rewrite !in_app_iff. split.
    + intros [H | H].
      * apply M1 in H. tauto.
      * apply M2 in H. destruct H as [H Hn]. split; [tauto |].
        intros Hw. apply Hn. rewrite K1. apply in_or_app. left. exact Hw.
    + intros [[H | H] Hn].
      * left. apply M1. tauto.
      * destruct (in_dec string_dec k e1) as [He | He]; [left; exact He |].
        right. apply M2. split; [exact H |].
        rewrite K1, in_app_iff. tauto.
Qed.

Lemma dict_set_extends (k : string) (v : float) (w : Weights) :
  extends w (dict_set String.eqb k v w) [k].
Proof.
  exists (if mem_str k (keys w) then [] else [k]).
  split; [apply dict_set_new_key |].
  destruct (mem_str k (keys w)) eqn:E.
  - apply mem_str_in in E. split; [constructor |].
    intros k'. simpl. split; [tauto |]. intros [[<- | []] Hn]. tauto.
  - assert (Hn : ~ In k (keys w)).
    { intros H. apply mem_str_in in H. congruence. }
    split; [repeat constructor; intros [] |].
    intros k'. simpl. split.
    + intros [<- | []]. tauto.
    + tauto.
Qed.

Lemma add_deltas_extends (adds : Weights) :
  forall w, extends w (add_deltas adds w) (keys adds).
Proof.
  induction adds as [| [k v] adds IH]; intros w; [apply extends_refl |].
  rewrite add_deltas_step.
  exact (extends_trans _ _ _ [k] (keys adds)
           (dict_set_extends k _ w) (IH _)).
Qed.

Lemma trait_bias_extends (cfg : NLConfig) (s : SimInfo) :
  forall w,
    extends w (_apply_trait_bias cfg s w)
      (flat_map keys
         (map snd
            (filter (fun entry => mem_str (fst entry) (trait_names s))
                    (trait_bias cfg)))).
Proof.
  unfold _apply_trait_bias.
  induction (trait_bias cfg) as [| [name adds] tb IH]; intros w; simpl.
  - apply extends_refl.
  - destruct (mem_str name (trait_names s)); [| apply IH]. simpl.
    exact (extends_trans _ _ _ _ _ (add_deltas_extends adds w) (IH _)).
Qed.

Lemma flat_map_keys_one (adds : Weights) :
  flat_map keys [adds] = keys adds.
Proof. simpl. apply app_nil_r. Qed.

(** X4: biasing never removes an action of the template and never changes
    the order of the template's own actions. The keys of the table handed
    to the selector are the template's keys, in their order, followed by
    the actions that the applied bias layers mention and the template does
    not have, each of them once and none other. *)
Theorem biased_weights_keep_template_order (env : Env) (cfg : NLConfig)
    (wtype : option string) (s : SimInfo) (t : Template) :
  exists extra,
    keys (biased_weights env cfg wtype s t) = keys (tpl_actions t) ++ extra
    /\ NoDup extra
    /\ forall k,
         In k extra <->
         In k (flat_map keys (applied_layers env cfg wtype s))
         /\ ~ In k (keys (tpl_actions t)).
Proof.
  change (extends (tpl_actions t) (biased_weights env cfg wtype s t)
            (flat_map keys (applied_layers env cfg wtype s))).
  unfold biased_weights, applied_layers. rewrite !flat_map_app.
  set (w1 := _apply_trait_bias cfg s (tpl_actions t)).
  assert (H1 : extends (tpl_actions t) w1 _) by apply trait_bias_extends.
  set (w2 := _apply_weather_bias cfg wtype w1).
  assert (H2 : extends w1 w2
            (flat_map keys
               match wtype with
               | None => []
               | Some name =>
                   match (if contains "RAIN" name then Some "Rain"
                          else if contains "SNOW" name then Some "Snow"
                          else None) with
                   | Some key =>
                       match dict_get String.eqb key (weather_bias cfg) with
                       | Some adds => [adds]
                       | None => []
                       end
                   | None => []
                   end
               end)).
  { unfold w2, _apply_weather_bias.
    destruct wtype as [name |]; [| apply extends_refl].
    destruct (if contains "RAIN" name then Some "Rain"
              else if contains "SNOW" name then Some "Snow" else None)
      as [key |]; [| apply extends_refl].
    destruct (dict_get String.eqb key (weather_bias cfg)) as [adds |];
      [| apply extends_refl].
    rewrite flat_map_keys_one.
    destruct adds as [| a adds]; [apply extends_refl |].
    apply add_deltas_extends. }
  assert (H3 : extends w2
            (if is_weekend env then _apply_weekend_bias cfg w2 else w2)
            (flat_map keys
               (if is_weekend env then [weekend_bias cfg] else []))).
  { destruct (is_weekend env); [| apply extends_refl].
    rewrite flat_map_keys_one. apply add_deltas_extends. }
  exact (extends_trans _ _ _ _ _ H1 (extends_trans _ _ _ _ _ H2 H3)).
Qed.

(** At the sample config with the ["ACTIVE"] layer [{"JOG": 5.0}], the
    table of the morning template for a sim with that trait has JOG behind
    the template's two actions. *)
Example active_sim_gets_jog :
  keys (biased_weights Sample.env
          (Sample.config_of [Sample.morning]
             [("ACTIVE", [("JOG", float_of_Z 5)])])
          None Sample.alice Sample.morning)
  = ["WALK"; "HOME_IDLE"; "JOG"].
Proof. reflexivity. Qed.

Lemma trait_bias_none (cfg : NLConfig) (s : SimInfo) (w : Weights) :
  Forall (fun entry => mem_str (fst entry) (trait_names s) = false)
         (trait_bias cfg) ->
  _apply_trait_bias cfg s w = w.
Proof.
  unfold _apply_trait_bias. intros H. revert w.
  induction H as [| [name adds] tb Hx _ IH]; intros w; simpl; [reflexivity |].
  simpl in Hx. rewrite Hx. apply IH.
Qed.

(** X5: a sim that has none of the traits of [trait_bias], on a day that
    is not a weekend day and under a weather whose name contains neither
    RAIN nor SNOW (or without weather service), is handed the template's own
    weights, unchanged. *)
Theorem biased_weights_without_bias (env : Env) (cfg : NLConfig)
    (wtype : option string) (s : SimInfo) (t : Template) :
  Forall (fun entry => mem_str (fst entry) (trait_names s) = false)
         (trait_bias cfg) ->
  (forall name, wtype = Some name ->
                contains "RAIN" name = false /\ contains "SNOW" name = false) ->
  is_weekend env = false ->
  biased_weights env cfg wtype s t = tpl_actions t.
Proof.
  intros Htraits Hweather Hday. unfold biased_weights.
  rewrite Hday, (trait_bias_none _ _ _ Htraits).
  unfold _apply_weather_bias. destruct wtype as [name |]; [| reflexivity].
  destruct (Hweather name eq_refl) as [Hr Hs]. rewrite Hr, Hs. reflexivity.
Qed.

(** ** Venue tags and the executor *)

Ltac split_on_action act :=
  repeat match goal with
         | |- context [String.eqb act ?lit] =>
             destruct (String.eqb_spec act lit); [subst act |]
         end.

(** X7: the venue table and the executor agree. An action for which
    [_derive_venue_tag] gives a venue is an action [execute] knows: for a
    sim that has an instance it enters a movement routine, it is never the
    "Unknown action" branch. *)
Theorem venue_actions_are_executed (si : SimInfo) (b : TimeBlock)
    (tag : string) :
  _derive_venue_tag (action b) = Some tag ->
  has_instance si = true ->
  exists m, Collab.execute si b = [Moved (Game.sim_id si) m].
Proof.
  intros Htag Hinst. unfold Collab.execute, get_sim_instance.
  rewrite Hinst. revert Htag. unfold _derive_venue_tag.
  generalize (action b) as act. intros act.
  split_on_action act; intros Htag; try discriminate Htag;
    simpl; eexists; reflexivity.
Qed.

(** The theorems at the sample session. *)
Lemma biased_weights_without_bias_witness :
  biased_weights Sample.env Sample.cfg_bare None Sample.bob Sample.morning
  = tpl_actions Sample.morning.
Proof.
  apply biased_weights_without_bias.
  - repeat constructor.
  - intros name Hname. discriminate Hname.
  - reflexivity.
Defined.

Lemma venue_actions_are_executed_witness :
  exists m,
    Collab.execute Sample.carol
      {| start_min := 480; duration_min := 30;
         action := "CAFE_IDLE"; venue_tag := Some "cafe" |}
    = [Moved 3 m].
Proof.
  apply (venue_actions_are_executed Sample.carol
           {| start_min := 480; duration_min := 30;
              action := "CAFE_IDLE"; venue_tag := Some "cafe" |} "cafe");
    reflexivity.
Defined.

(** ** Weather *)

(** X6: of the [weather_bias] table only the entries ["Rain"] and ["Snow"]
    are ever read, and ["Snow"] only when the weather name does not contain
    RAIN: two configs that agree on those entries bias a table identically,
    whatever other weather keys they hold. *)
Theorem weather_bias_reads_rain_and_snow_only (cfg1 cfg2 : NLConfig)
    (wtype : option string) (w : Weights) :
  dict_get String.eqb "Rain" (weather_bias cfg1) =
  dict_get String.eqb "Rain" (weather_bias cfg2) ->
  (forall name,
      wtype = Some name -> contains "RAIN" name = false ->
      dict_get String.eqb "Snow" (weather_bias cfg1) =
      dict_get String.eqb "Snow" (weather_bias cfg2)) ->
  _apply_weather_bias cfg1 wtype w = _apply_weather_bias cfg2 wtype w.
Proof.
  intros Hrain Hsnow. unfold _apply_weather_bias.
  destruct wtype as [name |]; [| reflexivity].
  destruct (contains "RAIN" name) eqn:Er.
  - rewrite Hrain. reflexivity.
  - destruct (contains "SNOW" name); [| reflexivity].
    rewrite (Hsnow name eq_refl Er). reflexivity.
Qed.

(** The theorem on a config with a ["Sunny"] table and a config without
    any weather table, under sunny weather and under rain. *)
Lemma weather_bias_reads_rain_and_snow_only_witness :
  _apply_weather_bias
    {| participant_count := 8; time_blocks := []; trait_bias := [];
       weather_bias := [("Sunny", [("PARK_WALK", float_of_Z 3)])];
       weekend_bias := []; news_enabled := true; debug_logging := true |}
    (Some "SUNNY") [("PARK_WALK", float_of_Z 1)]
  = _apply_weather_bias (Sample.config_of [] []) (Some "SUNNY")
      [("PARK_WALK", float_of_Z 1)].
Proof.
  apply weather_bias_reads_rain_and_snow_only.
  - reflexivity.
  - intros name _ _. reflexivity.
Defined.

(** ** The End alarm and disabled news *)

(** X8: [_on_block_end] never moves a sim: all it can produce is the one
    End notification. With [news_enabled] off it produces nothing at all,
    and [_on_block_start] then produces no notification, only what the
    executor does. *)
Theorem end_alarm_only_notifies (env : Env) (d : NeighborhoodDirector)
    (sid : Z) (b : TimeBlock) :
  (_on_block_end env d (sid, b) = []
   \/ _on_block_end env d (sid, b) = [Notified End sid b])
  /\ (news_enabled (cfg d) = false ->
      _on_block_end env d (sid, b) = []
      /\ Forall is_move (_on_block_start env d (sid, b))).
Proof.
  unfold _on_block_end, _on_block_start, get_sim_info.
  destruct (find (fun si => Game.sim_id si =? sid) (all_sims env))
    as [si |] eqn:E.
  - apply find_some in E. destruct E as [_ E]. apply Z.eqb_eq in E.
    unfold post_end, post_start, cleanup. rewrite E. split.
    + destruct (news_enabled (cfg d)); simpl; auto.
    + intros ->. simpl. split; [reflexivity | apply execute_moves].
  - split; [left; reflexivity |]. intros _. split; [reflexivity | constructor].
Qed.

(** ** The director and its host *)

Lemma in_number_from (a : Alarm) (l : list Alarm) :
  forall n, In a l -> exists h, In (h, a) (number_from n l).
Proof.
  unfold number_from. induction l as [| x l IH]; intros n Hin; [destruct Hin |].
  simpl. destruct Hin as [-> | Hin].
  - exists n. left. reflexivity.
  - destruct (IH (S n) Hin) as (h & Hh). exists h. right. exact Hh.
Qed.

Lemma in_expected_alarms (now_min : Z) (scheds : list DailySchedule)
    (ds : DailySchedule) (b : TimeBlock) (a : Alarm) :
  In ds scheds -> In b (blocks ds) ->
  In a (block_alarms now_min (Schedules.sim_id ds) b) ->
  In a (expected_alarms now_min scheds).
Proof.
  intros Hds Hb Ha. unfold expected_alarms, schedule_alarms.
  apply in_flat_map. exists ds. split; [exact Hds |].
  apply in_flat_map. exists b. split; [exact Hb | exact Ha].
Qed.

(** X9: a block whose start has already passed when the director
    activates is not dropped. Its Start alarm is set with delay 0, so it
    fires at once, and its End alarm is set its full duration from now. *)
Theorem passed_block_starts_at_once (env : Env) (host : Host)
    (d : NeighborhoodDirector) (ds : DailySchedule) (b : TimeBlock) :
  In ds (values (_schedules d)) ->
  In b (blocks ds) ->
  start_min b <= get_today_minutes env ->
  exists hs he,
    In (hs, {| delay := 0; callback := Start; repeating := false;
               data := (Schedules.sim_id ds, b) |})
       (live (fst (_schedule_alarms env host d)))
    /\ In (he, {| delay := duration_min b; callback := End;
                  repeating := false; data := (Schedules.sim_id ds, b) |})
          (live (fst (_schedule_alarms env host d))).
Proof.
  intros Hds Hb Hpast. rewrite _schedule_alarms_register.
  unfold register; simpl.
  assert (Hblock :
            block_alarms (get_today_minutes env) (Schedules.sim_id ds) b =
            [ {| delay := 0; callback := Start; repeating := false;
                 data := (Schedules.sim_id ds, b) |};
              {| delay := duration_min b; callback := End;
                 repeating := false; data := (Schedules.sim_id ds, b) |} ]).
  { unfold block_alarms.
    replace (Z.max 0 (start_min b - get_today_minutes env)) with 0 by lia.
    reflexivity. }
  destruct (in_number_from
              {| delay := 0; callback := Start; repeating := false;
                 data := (Schedules.sim_id ds, b) |}
              (expected_alarms (get_today_minutes env) (values (_schedules d)))
              (next_handle host)) as (hs & Hhs).
  { eapply in_expected_alarms; [exact Hds | exact Hb |].
    rewrite Hblock. left. reflexivity. }
  destruct (in_number_from
              {| delay := duration_min b; callback := End; repeating := false;
                 data := (Schedules.sim_id ds, b) |}
              (expected_alarms (get_today_minutes env) (values (_schedules d)))
              (next_handle host)) as (he & Hhe).
  { eapply in_expected_alarms; [exact Hds | exact Hb |].
    rewrite Hblock. right. left. reflexivity. }
  exists hs, he. split; apply in_or_app; right; assumption.
Qed.

(** The theorem at 09:00 for the block that started at 08:00. *)
Lemma passed_block_starts_at_once_witness :
  exists hs he,
    In (hs, {| delay := 0; callback := Start; repeating := false;
               data := (1, Sample.walk_block) |})
       (live (fst (_schedule_alarms Scenario.late_env Sample.host0
                     Scenario.scheduled)))
    /\ In (he, {| delay := 30; callback := End; repeating := false;
                  data := (1, Sample.walk_block) |})
          (live (fst (_schedule_alarms Scenario.late_env Sample.host0
                        Scenario.scheduled))).
Proof.
  apply (passed_block_starts_at_once Scenario.late_env Sample.host0
           Scenario.scheduled Scenario.morning_schedule Sample.walk_block).
  - left. reflexivity.
  - left. reflexivity.
  - vm_compute. discriminate.
Defined.

(** An activation that completes registered the alarms of the schedules it
    built, under consecutive new handles. *)
Lemma start_for_today_registers (env : Env) (host host' : Host)
    (d d' : NeighborhoodDirector) (g g' : Rng) :
  start_for_today env host d g = inr (host', d', g') ->
  exists new,
    new = expected_alarms (get_today_minutes env) (values (_schedules d'))
    /\ live host' = live host ++ number_from (next_handle host) new
    /\ _alarms d' = _alarms d ++ seq (next_handle host) (List.length new)
    /\ cancels host' = cancels host
    /\ next_handle host' = (next_handle host + List.length new)%nat
    /\ cfg d' = cfg d.
Proof.
  intros H. destruct (start_for_today_inv _ _ _ _ _ _ _ H) as (schedules & E).
  rewrite _schedule_alarms_register in E. unfold register in E; simpl in E.
  inversion E; subst; clear E. simpl.
  eexists. split; [reflexivity |]. auto.
Qed.

Lemma spared_all_old (host : Host) (n : nat) :
  host_wf host ->
  filter (spared (seq (next_handle host) n)) (live host) = live host.
Proof.
  unfold host_wf. rewrite Forall_map.
  induction 1 as [| e lv He _ IH]; simpl; [reflexivity |].
  replace (spared (seq (next_handle host) n) e) with true;
    [rewrite IH; reflexivity |].
  symmetry. unfold spared. apply negb_true_iff.
  destruct (existsb (Nat.eqb (fst e)) (seq (next_handle host) n)) eqn:E;
    [| reflexivity].
  apply existsb_exists in E. destruct E as (h & Hin & Heq).
  apply Nat.eqb_eq in Heq. apply in_seq in Hin. lia.
Qed.

Lemma spared_none_new (k : nat) (new : list Alarm) :
  forall n,
    (forall h, In h (seq n (List.length new)) -> In h (seq k (n - k + List.length new))) ->
    filter (spared (seq k (n - k + List.length new))) (number_from n new) = [].
Proof.
  unfold number_from.
  induction new as [| a new IH]; intros n Hsub; simpl; [reflexivity |].
  assert (Hn : spared (seq k (n - k + S (List.length new))) (n, a) = false).
  { unfold spared. apply negb_false_iff. apply existsb_exists.
    exists n. split; [| apply Nat.eqb_refl].
    apply Hsub. left. reflexivity. }
  rewrite Hn.
  assert (Hle : (k <= n)%nat).
  { specialize (Hsub n (or_introl eq_refl)). apply in_seq in Hsub. lia. }
  replace (n - k + S (List.length new))%nat
    with (S n - k + List.length new)%nat by lia.
  apply IH. intros h Hh. apply in_seq in Hh. apply in_seq. lia.
Qed.

(** X10: activation followed by deactivation gives the host its alarms
    back. From a director without handles on a well-formed host, a
    [start_for_today] that completes and the [stop_all] after it leave the
    live alarms of the host exactly as they were before, and [stop_all]
    cancelled exactly the handles the activation had recorded. *)
Theorem start_then_stop_restores_host (env : Env) (host host1 : Host)
    (d d1 : NeighborhoodDirector) (g g1 : Rng) :
  host_wf host ->
  _alarms d = [] ->
  start_for_today env host d g = inr (host1, d1, g1) ->
  live (fst (stop_all host1 d1)) = live host
  /\ cancels (fst (stop_all host1 d1)) = cancels host ++ _alarms d1
  /\ _alarms (snd (stop_all host1 d1)) = []
  /\ _schedules (snd (stop_all host1 d1)) = [].
Proof.
  intros Hwf Hnone Hrun.
  destruct (start_for_today_registers _ _ _ _ _ _ _ Hrun)
    as (new & _ & Hlive & Hal & Hc & _ & _).
  unfold stop_all. rewrite cancel_all. simpl.
  rewrite Hc. split; [| auto].
  rewrite Hlive, Hal, Hnone, filter_app. simpl.
  rewrite (spared_all_old host _ Hwf).
  pose proof (spared_none_new (next_handle host) new (next_handle host)) as Hn.
  rewrite Nat.sub_diag in Hn. simpl in Hn.
  rewrite Hn; [apply app_nil_r | auto].
Qed.

(** The theorem at the sample session. *)
Lemma start_then_stop_restores_host_witness :
  live (fst (stop_all (fst Sample.once) (snd Sample.once))) = []
  /\ cancels (fst (stop_all (fst Sample.once) (snd Sample.once)))
     = [] ++ _alarms (snd Sample.once)
  /\ _alarms (snd (stop_all (fst Sample.once) (snd Sample.once))) = []
  /\ _schedules (snd (stop_all (fst Sample.once) (snd Sample.once))) = [].
Proof.
  apply (start_then_stop_restores_host Sample.env Sample.host0
           (fst Sample.once) (init Sample.cfg) (snd Sample.once) [] []).
  - constructor.
  - reflexivity.
  - reflexivity.
Defined.

Lemma nodup_append_fresh (alarms : list nat) (k n : nat) :
  NoDup alarms ->
  Forall (fun h => (h < k)%nat) alarms ->
  NoDup (alarms ++ seq k n).
Proof.
  intros Hnd Hlt. apply NoDup_app; [exact Hnd | apply seq_NoDup |].
  intros h Hin Hseq. apply in_seq in Hseq.
  rewrite Forall_forall in Hlt. specialize (Hlt h Hin). lia.
Qed.

(** X11: the state of a director and its host keeps its shape through the
    life cycle. If every live alarm of the host bears an issued handle and
    the director's handles are issued and distinct, the same holds after a
    [start_for_today] that completes and after [stop_all]; it holds of a new
    director on a host without alarms. So no handle is ever recorded twice,
    and [stop_all] never cancels a handle the host did not issue. *)
Theorem director_inv_preserved (env : Env) (host : Host)
    (d : NeighborhoodDirector) (g : Rng) :
  director_inv host d ->
  (forall host' d' g',
      start_for_today env host d g = inr (host', d', g') ->
      director_inv host' d')
  /\ director_inv (fst (stop_all host d)) (snd (stop_all host d))
  /\ director_inv {| next_handle := O; live := []; cancels := [] |}
       (init (cfg d)).
Proof.
  intros (Hwf & Hissued & Hnd). split; [| split].
  - intros host' d' g' Hrun.
    destruct (start_for_today_registers _ _ _ _ _ _ _ Hrun)
      as (new & _ & Hlive & Hal & _ & Hnext & _).
    unfold director_inv, host_wf, issued in *.
    rewrite Hlive, Hal, Hnext, map_app, number_from_handles.
    split; [| split].
    + apply Forall_app. split.
      * eapply Forall_impl; [| exact Hwf]. simpl. intros h Hh. lia.
      * apply Forall_forall. intros h Hh. apply in_seq in Hh. lia.
    + apply Forall_app. split.
      * eapply Forall_impl; [| exact Hissued]. simpl. intros h Hh. lia.
      * apply Forall_forall. intros h Hh. apply in_seq in Hh. lia.
    + apply nodup_append_fresh; assumption.
  - unfold stop_all. rewrite cancel_all. unfold director_inv, host_wf, issued.
    simpl. split; [| split; constructor].
    apply Forall_forall. intros h Hh. apply in_map_iff in Hh.
    destruct Hh as (e & <- & He). apply filter_In in He.
    unfold host_wf in Hwf. rewrite Forall_forall in Hwf.
    apply Hwf. apply in_map. tauto.
  - unfold director_inv, host_wf, issued. simpl. repeat constructor.
Qed.

(** The theorem at the state the first sample activation leaves. *)
Lemma director_inv_preserved_witness :
  director_inv (fst Sample.twice) (snd Sample.twice)
  /\ director_inv (fst (stop_all (fst Sample.once) (snd Sample.once)))
                  (snd (stop_all (fst Sample.once) (snd Sample.once))).
Proof.
  assert (Hinv : director_inv (fst Sample.once) (snd Sample.once)).
  { unfold director_inv, host_wf, issued. simpl.
    repeat split; repeat constructor; simpl; intuition lia. }
  destruct (director_inv_preserved Sample.env (fst Sample.once)
              (snd Sample.once) [] Hinv) as (Hstart & Hstop & _).
  split; [| exact Hstop].
  exact (Hstart (fst Sample.twice) (snd Sample.twice) [] eq_refl).
Defined.





(** ** Loading the configuration, with a file *)

Lemma load_sets_cache (fs : FileSystem ConfigData) (cls cls' : ClassState)
    (evs : list FsEvent) (c : ConfigObj) :
  load fs cls = (evs, inr (c, cls')) ->
  _cached cls' = Some c
  /\ forall fs', load fs' cls' = ([], inr (c, cls')).
Proof.
  unfold load. destruct (_cached cls) as [c0 |] eqn:Ec.
  - intros H. inversion H; subst. split; [exact Ec |].
    intros fs'. rewrite Ec. reflexivity.
  - destruct (find_data fs (candidates fs)) as [evs0 [e | found]];
      [intros H; inversion H |].
    destruct (convert found) as [e | fields];
      intros H; inversion H; subst; clear H.
    split; [reflexivity |]. intros fs'. reflexivity.
Qed.

(** X15: whatever a [load] that completes has found, a file or the
    fallback, the instance it returns is the one the class caches, and every
    later [load] returns that instance and leaves the files alone, even if
    they have changed. A [load] on a class that already caches an instance
    returns it without any file access. *)
Theorem load_caches_whatever_found (fs : FileSystem ConfigData)
    (cls cls' : ClassState) (evs : list FsEvent) (c : ConfigObj) :
  load fs cls = (evs, inr (c, cls')) ->
  _cached cls' = Some c
  /\ (forall fs', load fs' cls' = ([], inr (c, cls')))
  /\ (forall fss, load_all fss cls' = map (fun _ => ([], inr c)) fss)
  /\ (forall c0, _cached cls = Some c0 -> c = c0 /\ evs = [] /\ cls' = cls).
Proof.
  intros Hload. destruct (load_sets_cache _ _ _ _ _ Hload) as [Hc Hlater].
  split; [exact Hc |]. split; [exact Hlater |]. split.
  - intros fss. destruct cls' as [cached n]. simpl in Hc. subst cached.
    apply load_all_cached.
  - intros c0 Hc0. unfold load in Hload. rewrite Hc0 in Hload.
    inversion Hload; subst. auto.
Qed.

(** The theorem on a disk that holds a config file. *)
Lemma load_caches_whatever_found_witness :
  exists c cls',
    snd (load Sample.with_file Sample.fresh_class) = inr (c, cls')
    /\ participant_count (obj c) = 3
    /\ _cached cls' = Some c
    /\ load Sample.no_files cls' = ([], inr (c, cls')).
Proof.
  destruct (load Sample.with_file Sample.fresh_class) as [evs r] eqn:E.
  destruct r as [e | [c cls']]; [vm_compute in E; discriminate E |].
  destruct (load_caches_whatever_found _ _ _ _ _ E) as (Hc & Hlater & _).
  exists c, cls'. split; [reflexivity |].
  split; [vm_compute in E; inversion E; reflexivity |].
  split; [exact Hc | apply Hlater].
Defined.

Lemma find_data_first (fs : FileSystem ConfigData)
    (skipped later : list string) (p : string) :
  Forall (fun q => exists_ fs q = false) skipped ->
  exists_ fs p = true ->
  find_data fs (skipped ++ p :: later) =
  (map Probed skipped ++ [Probed p; Opened p], json_load fs p).
Proof.
  intros Hskip Hp. induction Hskip as [| q qs Hq _ IH]; simpl.
  - rewrite Hp. reflexivity.
  - rewrite Hq, IH. reflexivity.
Qed.

(** X16: the first candidate path that exists decides the [load], whatever
    it holds. The candidates before it are only probed, it alone is opened,
    and the candidates after it are not touched, whether the [load] then
    returns or raises. If the file cannot be read as JSON, [load] raises
    that error and caches nothing; if it holds a document that is not an
    object, the [AttributeError] of [data.get] comes out in the same way:
    there is no fallback to a later candidate or to the built-in defaults.
    If it holds [null], the config is the built-in default, as when no
    candidate exists. *)
Theorem load_first_existing_decides (fs : FileSystem ConfigData)
    (cls : ClassState) (skipped later : list string) (p : string) :
  _cached cls = None ->
  candidates fs = skipped ++ p :: later ->
  Forall (fun q => exists_ fs q = false) skipped ->
  exists_ fs p = true ->
  fst (load fs cls) = map Probed skipped ++ [Probed p; Opened p]
  /\ (forall e, json_load fs p = inl e -> snd (load fs cls) = inl e)
  /\ (json_load fs p = inr Other -> snd (load fs cls) = inl AttributeError)
  /\ (json_load fs p = inr Null ->
      exists c cls',
        snd (load fs cls) = inr (c, cls')
        /\ oid c = next_oid cls
        /\ participant_count (obj c) = 8
        /\ time_blocks (obj c) = []
        /\ news_enabled (obj c) = true
        /\ _cached cls' = Some c).
Proof.
  intros Hnone Hcand Hskip Hp. unfold load.
  rewrite Hnone, Hcand, (find_data_first fs skipped later p Hskip Hp).
  split; [reflexivity |]. simpl. split; [| split].
  - intros e ->. reflexivity.
  - intros ->. reflexivity.
  - intros ->. simpl. eexists. eexists. split; [reflexivity |].
    repeat split.
Qed.

(** The theorem on the sample disk with a file: the script-relative path
    exists, so the path relative to the working directory is never probed. *)
Lemma load_first_existing_decides_witness :
  fst (load Sample.with_file Sample.fresh_class) =
  [ Probed "/Mods/NeighborhoodLife/neighborhood_life_resources/config.json";
    Opened "/Mods/NeighborhoodLife/neighborhood_life_resources/config.json" ].
Proof.
  exact (proj1 (load_first_existing_decides Sample.with_file
                  Sample.fresh_class []
                  ["neighborhood_life_resources/config.json"]
                  "/Mods/NeighborhoodLife/neighborhood_life_resources/config.json"
                  eq_refl eq_refl (Forall_nil _) eq_refl)).
Defined.

(** ** The zone handlers, in general *)

(** X13: [_on_zone_unload] leaves no director: the singleton is cleared,
    every handle the director held has been passed to [cancel_alarm] and is
    no longer live, and the cached config is kept. Without a director it
    changes nothing, so a second unload is a no-op. *)
Theorem zone_unload_clears (st : Bootstrap.State) :
  Bootstrap._DIRECTOR_SINGLETON (Bootstrap._on_zone_unload st) = None
  /\ Bootstrap.config_class (Bootstrap._on_zone_unload st)
     = Bootstrap.config_class st
  /\ Bootstrap._on_zone_unload (Bootstrap._on_zone_unload st)
     = Bootstrap._on_zone_unload st
  /\ (Bootstrap._DIRECTOR_SINGLETON st = None ->
      Bootstrap._on_zone_unload st = st)
  /\ (forall d,
        Bootstrap._DIRECTOR_SINGLETON st = Some d ->
        cancels (Bootstrap.host (Bootstrap._on_zone_unload st))
        = cancels (Bootstrap.host st) ++ _alarms d
        /\ Forall (fun h => ~ is_live
                               (Bootstrap.host (Bootstrap._on_zone_unload st))
                               h)
                  (_alarms d)).
Proof.
  unfold Bootstrap._on_zone_unload.
  destruct (Bootstrap._DIRECTOR_SINGLETON st) as [d |] eqn:Ed.
  - unfold stop_all. rewrite cancel_all. simpl.
    split; [reflexivity |]. split; [reflexivity |]. split; [reflexivity |].
    split; [discriminate |].
    intros d1 E. inversion E; subst d1. split; [reflexivity |].
    apply Forall_forall. intros h Hh. unfold is_live; simpl.
    apply spared_not_live. exact Hh.
  - rewrite Ed. split; [reflexivity |]. split; [reflexivity |].
    split; [reflexivity |]. split; [reflexivity |].
    intros d1 E. discriminate E.
Qed.

Lemma zone_unload_state (st : Bootstrap.State) :
  Bootstrap._DIRECTOR_SINGLETON (Bootstrap._on_zone_unload st) = None
  /\ Bootstrap.config_class (Bootstrap._on_zone_unload st)
     = Bootstrap.config_class st.
Proof.
  unfold Bootstrap._on_zone_unload.
  destruct (Bootstrap._DIRECTOR_SINGLETON st) as [d |] eqn:Ed.
  - destruct (stop_all (Bootstrap.host st) d). split; reflexivity.
  - split; [exact Ed | reflexivity].
Qed.

Lemma zone_late_load_inv (fs : FileSystem ConfigData) (env : Env)
    (st st' : Bootstrap.State) (g g' : Rng) :
  Bootstrap._on_zone_late_load fs env st g = inr (st', g') ->
  exists evs c d',
    load fs (Bootstrap.config_class st)
    = (evs, inr (c, Bootstrap.config_class st'))
    /\ Bootstrap._DIRECTOR_SINGLETON st' = Some d'
    /\ start_for_today env (Bootstrap.host st)
         (ensure_singleton (Bootstrap._DIRECTOR_SINGLETON st) (init (obj c)))
         g
       = inr (Bootstrap.host st', d', g').
Proof.
  unfold Bootstrap._on_zone_late_load, bind, lift, ret.
  destruct (load fs (Bootstrap.config_class st)) as [evs [e | [c cls]]] eqn:El;
    simpl; [discriminate |].
  destruct (start_for_today env (Bootstrap.host st) _ g)
    as [e | [[host' d'] g1]] eqn:Es; [discriminate |].
  intros H. inversion H; subst; clear H. simpl.
  exists evs, c, d'. auto.
Qed.

(** X14: the config is read once per process, not once per zone. After a
    zone load that completes, the class caches a config; after the unload,
    the next zone load builds its new director on that same cached config
    and leaves the class state as it is, whatever the files hold by then. *)
Theorem zone_loads_share_config (fs : FileSystem ConfigData) (env : Env)
    (st st1 : Bootstrap.State) (g g1 : Rng) :
  Bootstrap._on_zone_late_load fs env st g = inr (st1, g1) ->
  exists c,
    _cached (Bootstrap.config_class st1) = Some c
    /\ forall fs2 env2 g2 st2 g3,
         Bootstrap._on_zone_late_load fs2 env2 (Bootstrap._on_zone_unload st1)
           g2 = inr (st2, g3) ->
         Bootstrap.config_class st2 = Bootstrap.config_class st1
         /\ exists d,
              Bootstrap._DIRECTOR_SINGLETON st2 = Some d /\ cfg d = obj c.
Proof.
  intros H1.
  destruct (zone_late_load_inv _ _ _ _ _ _ H1) as (evs & c & d1 & Hl & _ & _).
  destruct (load_sets_cache _ _ _ _ _ Hl) as [Hc Hlater].
  exists c. split; [exact Hc |].
  intros fs2 env2 g2 st2 g3 H2.
  destruct (zone_late_load_inv _ _ _ _ _ _ H2)
    as (evs2 & c2 & d2 & Hl2 & Hd2 & Hs2).
  destruct (zone_unload_state st1) as [Hnone Hcls].
  rewrite Hcls, Hlater in Hl2. inversion Hl2; subst.
  split; [reflexivity |].
  exists d2. split; [exact Hd2 |].
  rewrite Hnone in Hs2. simpl in Hs2.
  destruct (start_for_today_registers _ _ _ _ _ _ _ Hs2)
    as (new & _ & _ & _ & _ & _ & Hcfg).
  exact Hcfg.
Qed.

(** The theorem at the sample session: the file is gone at the second zone
    load, and the new director still runs on the config read from it. *)
Lemma zone_loads_share_config_witness :
  exists c,
    _cached (Bootstrap.config_class Scenario.loaded) = Some c
    /\ Bootstrap.config_class Scenario.reloaded
       = Bootstrap.config_class Scenario.loaded
    /\ exists d,
         Bootstrap._DIRECTOR_SINGLETON Scenario.reloaded = Some d
         /\ cfg d = obj c.
Proof.
  destruct (zone_loads_share_config Sample.with_file Sample.env
              Bootstrap.initial Scenario.loaded [] [] eq_refl)
    as (c & Hc & Hnext).
  exists c. split; [exact Hc |].
  exact (Hnext Sample.no_files Sample.env [] Scenario.reloaded [] eq_refl).
Defined.

Lemma expected_alarms_nil (now_min : Z) (scheds : list DailySchedule) :
  Forall (fun ds => blocks ds = []) scheds ->
  expected_alarms now_min scheds = [].
Proof.
  unfold expected_alarms, schedule_alarms.
  induction 1 as [| ds rest Hds _ IH]; simpl; [reflexivity |].
  rewrite Hds, IH. reflexivity.
Qed.

(** With a config that has no time block, an activation always completes
    and gives the host back untouched. *)
Lemma start_without_templates (env : Env) (host : Host)
    (d : NeighborhoodDirector) (g : Rng) :
  time_blocks (cfg d) = [] ->
  exists d' g',
    start_for_today env host d g = inr (host, d', g')
    /\ _alarms d' = _alarms d
    /\ cfg d' = cfg d
    /\ Forall (fun ds => blocks ds = []) (values (_schedules d')).
Proof.
  intros Hnone. unfold start_for_today, bind, ret.
  unfold select_participant_sims, bind, ret.
  destruct (shuffle_perm (filter eligible (all_sims env)) g)
    as (pool & g1 & Hshuffle & _).
  rewrite Hshuffle.
  set (picked := take (Z.max 1 (participant_count (cfg d))) pool).
  assert (Hpicked :
            Forall (fun s => Forall (template_ok env (cfg d) s)
                                    (time_blocks (cfg d))) picked).
  { apply Forall_forall. intros s _. rewrite Hnone. constructor. }
  unfold build_for_sims.
  destruct (build_loop_defined env (cfg d) picked Hpicked [] g1)
    as (res & g2 & Hbuild).
  rewrite Hbuild.
  destruct (build_loop_sound env (cfg d) picked [] [] g1 g2 res Hbuild)
    as (_ & _ & Hall); simpl; [constructor | tauto | constructor |].
  assert (Hempty : Forall (fun ds => blocks ds = []) (values res)).
  { unfold values. apply Forall_forall. intros ds Hds.
    apply in_map_iff in Hds. destruct Hds as (kv & <- & Hkv).
    rewrite Forall_forall in Hall.
    destruct (Hall kv Hkv) as (_ & s & _ & _ & Hblocks).
    rewrite Hnone in Hblocks. inversion Hblocks. reflexivity. }
  rewrite _schedule_alarms_register. cbn [_schedules _alarms cfg].
  rewrite (expected_alarms_nil _ _ Hempty), register_nil. simpl.
  eexists. eexists. split; [reflexivity |]. simpl. auto.
Qed.

(** X19: without a config file the package arms nothing. A first zone load
    (no director yet, empty cache) that finds none of the candidate paths
    completes for every sim population and every random source, installs a
    director that holds no handle and only schedules without blocks, and
    leaves the alarm facility of the host exactly as it was. *)
Theorem zone_load_without_config_arms_nothing (fs : FileSystem ConfigData)
    (env : Env) (st : Bootstrap.State) (g : Rng) :
  _cached (Bootstrap.config_class st) = None ->
  Bootstrap._DIRECTOR_SINGLETON st = None ->
  Forall (fun p => exists_ fs p = false) (candidates fs) ->
  exists st' g' d,
    Bootstrap._on_zone_late_load fs env st g = inr (st', g')
    /\ Bootstrap.host st' = Bootstrap.host st
    /\ Bootstrap._DIRECTOR_SINGLETON st' = Some d
    /\ _alarms d = []
    /\ Forall (fun ds => blocks ds = []) (values (_schedules d)).
Proof.
  intros Hcache Hsingle Habsent.
  unfold Bootstrap._on_zone_late_load, bind, lift, ret, load.
  rewrite Hcache, (find_data_absent fs _ Habsent), Hsingle. simpl.
  destruct (start_without_templates env (Bootstrap.host st)
              (init (make_config default_data)) g eq_refl)
    as (d' & g' & Hrun & Hal & _ & Hblocks).
  rewrite Hrun. eexists. eexists. exists d'.
  split; [reflexivity |]. simpl. auto.
Qed.

(** The theorem at the sample session on the disk without config file. *)
Lemma zone_load_without_config_arms_nothing_witness :
  exists st' g' d,
    Bootstrap._on_zone_late_load Sample.no_files Sample.env
      Bootstrap.initial [] = inr (st', g')
    /\ Bootstrap.host st' = Sample.host0
    /\ Bootstrap._DIRECTOR_SINGLETON st' = Some d
    /\ _alarms d = [].
Proof.
  destruct (zone_load_without_config_arms_nothing Sample.no_files Sample.env
              Bootstrap.initial [])
    as (st' & g' & d & Hrun & Hhost & Hd & Hal & _).
  - reflexivity.
  - reflexivity.
  - repeat constructor.
  - exists st', g', d. auto.
Defined.

(** ** Time strings *)

Lemma split_length (c : ascii) (s : string) :
  List.length (split c s) = S (count_char c s).
Proof.
  induction s as [| c' r IH]; simpl; [reflexivity |].
  destruct (Ascii.eqb c' c); simpl.
  - rewrite IH. reflexivity.
  - destruct (split c r) as [| hd tl]; simpl in *; [discriminate | exact IH].
Qed.

(** X17: [time_str_to_minutes] accepts a string only if it has exactly one
    colon: a string with no colon, or with two or more, raises
    [ValueError] from the unpacking of the split, whatever its fields
    hold. *)
Theorem time_str_needs_one_colon (env : Env) (hhmm : string) :
  count_char ":"%char hhmm <> 1%nat ->
  time_str_to_minutes env hhmm = inl ValueError.
Proof.
  intros Hcount. unfold time_str_to_minutes.
  pose proof (split_length ":"%char hhmm) as Hlen.
  destruct (split ":"%char hhmm) as [| hh [| mm [| x rest]]];
    simpl in Hlen; try reflexivity.
  exfalso. apply Hcount. lia.
Qed.

(** The theorem on a time written with seconds. *)
Lemma time_str_needs_one_colon_witness :
  time_str_to_minutes Sample.env "08:00:00" = inl ValueError.
Proof.
  apply time_str_needs_one_colon. vm_compute. discriminate.
Defined.

(** ** Participant selection, distinctness *)

Lemma firstn_nodup {A} (n : nat) (l : list A) : NoDup l -> NoDup (firstn n l).
Proof.
  intros H. rewrite <- (firstn_skipn n l) in H.
  apply NoDup_app_remove_r in H. exact H.
Qed.

(** X18: when the sim manager lists no sim info twice,
    [select_participant_sims] picks no sim twice; and when the pool of
    eligible sims is no larger than [max(1, count)], every eligible sim is
    picked. *)
Theorem select_participant_sims_distinct (env : Env) (count : Z)
    (g g' : Rng) (picked : list SimInfo) :
  NoDup (all_sims env) ->
  select_participant_sims env count g = inr (picked, g') ->
  NoDup picked
  /\ ((List.length (filter eligible (all_sims env))
       <= Z.to_nat (Z.max 1 count))%nat ->
      Permutation picked (filter eligible (all_sims env))).
Proof.
  intros Hnd Hrun. unfold select_participant_sims, bind, ret in Hrun.
  destruct (shuffle_perm (filter eligible (all_sims env)) g)
    as (pool & g1 & Hshuffle & Hperm).
  rewrite Hshuffle in Hrun. inversion Hrun; subst; clear Hrun.
  assert (Hpool : NoDup pool).
  { apply (Permutation_NoDup (Permutation_sym Hperm)).
    apply NoDup_filter. exact Hnd. }
  split.
  - unfold take. apply firstn_nodup. exact Hpool.
  - intros Hsmall. unfold take. rewrite firstn_all2; [exact Hperm |].
    rewrite (Permutation_length Hperm). exact Hsmall.
Qed.

(** The theorem at the sample session, where two sims are eligible and
    eight are asked for. *)
Lemma select_participant_sims_distinct_witness :
  NoDup [Sample.bob; Sample.alice]
  /\ ((List.length (filter eligible (all_sims Sample.env))
       <= Z.to_nat (Z.max 1 8))%nat ->
      Permutation [Sample.bob; Sample.alice]
                  (filter eligible (all_sims Sample.env))).
Proof.
  apply (select_participant_sims_distinct Sample.env 8 [] []).
  - repeat constructor; simpl; intuition discriminate.
  - reflexivity.
Defined.

(** ** The executor's routes *)

Lemma next_raw_rest (g : Rng) : snd (next_raw g) = skipn 1 g.
Proof. destruct g; reflexivity. Qed.

Lemma candidate_first (zone : Actions.Zone) (pos : Actions.Vector3)
    (radius : float) (g : Rng) :
  candidate zone pos radius g 0 =
  Actions.new_vector zone
    (fadd (Actions.vx pos)
          (spread (fneg radius) radius (unit_float (fst (next_raw g)))))
    (Actions.vy pos)
    (fadd (Actions.vz pos)
          (spread (fneg radius) radius
             (unit_float (fst (next_raw (snd (next_raw g))))))).
Proof. unfold candidate, raw_at. rewrite next_raw_rest. reflexivity. Qed.

Lemma candidate_next (zone : Actions.Zone) (pos : Actions.Vector3)
    (radius : float) (g : Rng) (j : nat) :
  candidate zone pos radius (skipn 2 g) j = candidate zone pos radius g (S j).
Proof.
  unfold candidate, raw_at. rewrite !skipn_skipn.
  replace (2 * j + 2)%nat with (2 * S j)%nat by lia.
  replace (2 * j + 1 + 2)%nat with (2 * S j + 1)%nat by lia.
  reflexivity.
Qed.

(** The loop of [_random_point_nearby] returns the first candidate that is
    on the lot, having read two raw numbers for it and for each candidate
    before it; or nothing, when every candidate was off the lot. *)
Lemma random_point_loop_tries (zone : Actions.Zone) (pos : Actions.Vector3)
    (radius : float) (tries : nat) :
  forall g,
    (exists i,
        (i < tries)%nat
        /\ Actions.random_point_loop zone pos radius tries g
           = inr (Some (candidate zone pos radius g i), skipn (2 * S i) g)
        /\ Actions.is_position_on_active_lot zone (candidate zone pos radius g i)
           = true
        /\ forall j, (j < i)%nat ->
             Actions.is_position_on_active_lot zone (candidate zone pos radius g j)
             = false)
    \/ (Actions.random_point_loop zone pos radius tries g
        = inr (None, skipn (2 * tries) g)
        /\ forall j, (j < tries)%nat ->
             Actions.is_position_on_active_lot zone (candidate zone pos radius g j)
             = false).
Proof.
  induction tries as [| n IH]; intros g.
  - right. split; [reflexivity | intros j Hj; lia].
  - cbn [Actions.random_point_loop]. unfold bind.
    rewrite uniform_spread, uniform_spread.
    rewrite <- candidate_first.
    assert (Hrest : snd (next_raw (snd (next_raw g))) = skipn 2 g).
    { rewrite !next_raw_rest, skipn_skipn. reflexivity. }
    rewrite Hrest.
    destruct (Actions.is_position_on_active_lot zone (candidate zone pos radius g 0))
      eqn:Elot.
    + left. exists O. split; [lia |]. split; [reflexivity |].
      split; [exact Elot | intros j Hj; lia].
    + destruct (IH (skipn 2 g)) as [(i & Hi & Hrun & Hon & Hoff) | [Hrun Hoff]].
      * left. exists (S i). split; [lia |].
        rewrite Hrun, skipn_skipn, candidate_next.
        replace (2 * S i + 2)%nat with (2 * S (S i))%nat by lia.
        split; [reflexivity |].
        split; [rewrite <- candidate_next; exact Hon |].
        intros [| j] Hj; [exact Elot |].
        rewrite <- candidate_next. apply Hoff. lia.
      * right. rewrite Hrun, skipn_skipn.
        replace (2 * n + 2)%nat with (2 * S n)%nat by lia.
        split; [reflexivity |].
        intros [| j] Hj; [exact Elot |].
        rewrite <- candidate_next. apply Hoff. lia.
Qed.

Lemma random_point_loop_spec (zone : Actions.Zone) (pos : Actions.Vector3)
    (radius : float) (tries : nat) (g : Rng) :
  exists r g',
    Actions.random_point_loop zone pos radius tries g = inr (r, g')
    /\ (forall p, r = Some p ->
                  Actions.is_position_on_active_lot zone p = true).
Proof.
  destruct (random_point_loop_tries zone pos radius tries g)
    as [(i & _ & Hrun & Hon & _) | [Hrun _]].
  - eexists. eexists. split; [exact Hrun |].
    intros p Hp. inversion Hp; subst p. exact Hon.
  - eexists. eexists. split; [exact Hrun |].
    intros p Hp. discriminate Hp.
Qed.

(** X20: [_random_point_nearby] never raises. It examines at most [tries]
    candidates, in order; the candidate of a try is the start moved by
    [uniform(-radius, radius)] along x and along z, both sums in double
    arithmetic, at the height of the start, made a vector by the game,
    and costs two raw numbers of the random source. It returns the first candidate that is on the active
    lot, and nothing when every candidate was off the lot, which is so when
    [tries] is not positive. *)
Theorem random_point_nearby_on_lot (zone : Actions.Zone)
    (pos : Actions.Vector3) (radius : float) (tries : Z) (g : Rng) :
  (exists i,
      (i < Z.to_nat tries)%nat
      /\ Actions._random_point_nearby zone pos radius tries g
         = inr (Some (candidate zone pos radius g i), skipn (2 * S i) g)
      /\ Actions.is_position_on_active_lot zone (candidate zone pos radius g i)
         = true
      /\ forall j, (j < i)%nat ->
           Actions.is_position_on_active_lot zone (candidate zone pos radius g j)
           = false)
  \/ (Actions._random_point_nearby zone pos radius tries g
      = inr (None, skipn (2 * Z.to_nat tries) g)
      /\ forall j, (j < Z.to_nat tries)%nat ->
           Actions.is_position_on_active_lot zone (candidate zone pos radius g j)
           = false).
Proof.
  unfold Actions._random_point_nearby. apply random_point_loop_tries.
Qed.

(** On the open lot the first candidate is taken: six tries around the
    origin read two raw numbers and return a point. *)
Example first_candidate_taken :
  Actions._random_point_nearby Scenario.open_lot Scenario.origin
    (float_of_Z 12) 6 [3%N; 5%N; 7%N]
  = inr (Some (candidate Scenario.open_lot Scenario.origin (float_of_Z 12)
                  [3%N; 5%N; 7%N] 0),
         [7%N]).
Proof. reflexivity. Qed.

(** A start at x = 0.1 with a radius of 12.0 and a [random()] of 0.0: the
    candidate's x is the float nearest to -11.9, the offset and the sum
    being rounded. *)
Example candidate_is_rounded :
  Actions.vx
    (candidate Scenario.open_lot
       {| Actions.vx := S754_finite false 3602879701896397 (-55);
          Actions.vy := fzero; Actions.vz := fzero |}
       (float_of_Z 12) [0%N; 0%N] 0)
  = S754_finite true 6699104445713613 (-49).
Proof. reflexivity. Qed.

Lemma jog_legs_spec (zone : Actions.Zone) (sid : Z) (around : Actions.Vector3)
    (legs : nat) :
  forall g,
  exists routes g',
    Actions.jog_legs zone sid around legs g = inr (routes, g')
    /\ (List.length routes <= legs)%nat
    /\ Forall (sound_route zone sid) routes.
Proof.
  induction legs as [| n IH]; intros g; cbn [Actions.jog_legs].
  - exists [], g. split; [reflexivity |]. split; [apply Nat.le_refl | constructor].
  - unfold bind, Actions._random_point_nearby.
    destruct (random_point_loop_spec zone around (float_of_Z 10)
                (Z.to_nat 4) g)
      as (r & g1 & Hrun & Hsome).
    rewrite Hrun.
    destruct (IH g1) as (rest & g2 & Hrest & Hlen & Hall).
    rewrite Hrest. destruct r as [p |]; unfold ret.
    + eexists. eexists. split; [reflexivity |]. simpl.
      split; [lia |]. constructor; [| exact Hall].
      split; [reflexivity |]. apply (Hsome p eq_refl).
    + exists rest, g2. split; [reflexivity |]. split; [lia | exact Hall].
Qed.

Lemma _do_idle_spec (zone : Actions.Zone) (sid : Z) (start : Actions.Vector3)
    (g : Rng) :
  exists routes g',
    Actions._do_idle zone sid start g = inr (routes, g')
    /\ (List.length routes <= 1)%nat
    /\ Forall (sound_route zone sid) routes.
Proof.
  unfold Actions._do_idle, bind, Actions._random_point_nearby.
  destruct (random_point_loop_spec zone start (float_of_Z 8) (Z.to_nat 6) g)
    as (r & g1 & Hrun & Hsome).
  rewrite Hrun. destruct r as [p |]; unfold ret.
  - eexists. eexists. split; [reflexivity |]. simpl.
    split; [lia |]. repeat constructor. apply (Hsome p eq_refl).
  - exists [], g1. split; [reflexivity |]. split; [simpl; lia | constructor].
Qed.

Lemma _do_walk_or_jog_spec (zone : Actions.Zone) (sid : Z)
    (start : Actions.Vector3) (jog : bool) (g : Rng) :
  exists routes g',
    Actions._do_walk_or_jog zone sid start jog g = inr (routes, g')
    /\ (List.length routes <= if jog then 3 else 1)%nat
    /\ Forall (sound_route zone sid) routes.
Proof.
  unfold Actions._do_walk_or_jog, bind, Actions._random_point_nearby.
  destruct (random_point_loop_spec zone start (float_of_Z 12) (Z.to_nat 6) g)
    as (r & g1 & Hrun & Hsome).
  rewrite Hrun. destruct r as [p |]; unfold ret.
  - destruct jog.
    + destruct (jog_legs_spec zone sid p 2 g1)
        as (legs & g2 & Hlegs & Hlen & Hall).
      fold (@bind (list Actions.Route) (list Actions.Route)).
      unfold bind. rewrite Hlegs.
      eexists. eexists. split; [reflexivity |]. simpl.
      split; [lia |]. constructor; [| exact Hall].
      split; [reflexivity |]. apply (Hsome p eq_refl).
    + eexists. eexists. split; [reflexivity |]. simpl.
      split; [lia |]. repeat constructor. apply (Hsome p eq_refl).
  - exists [], g1. split; [reflexivity |].
    split; [destruct jog; simpl; lia | constructor].
Qed.

(** X21: [execute] never raises, and every route it issues is for the sim
    of the alarm and leads to a point of the active lot. It issues at most
    three routes for JOG and at most one for any other action, and none for
    a sim without instance or for an action it does not know: whenever it
    routes, the action is one for which the dispatch of [execute] enters a
    movement routine. *)
Theorem execute_routes_on_lot (zone : Actions.Zone) (si : SimInfo)
    (b : TimeBlock) (g : Rng) :
  exists routes g',
    Actions.execute zone si b g = inr (routes, g')
    /\ Forall (sound_route zone (Game.sim_id si)) routes
    /\ (List.length routes <= route_budget (action b))%nat
    /\ (Actions.instance_position zone si = None -> routes = [])
    /\ (routes <> [] ->
        forall si', has_instance si' = true -> Collab.execute si' b <> []).
Proof.
  unfold Actions.execute, Collab.execute, route_budget, get_sim_instance.
  destruct (Actions.instance_position zone si) as [start |].
  2:{ exists [], g. split; [reflexivity |]. split; [constructor |].
      split; [destruct (String.eqb (action b) "JOG"); simpl; lia |].
      split; [reflexivity | congruence]. }
  destruct (mem_str (action b) ["JOG"; "WALK"; "PARK_WALK"]) eqn:E1.
  - destruct (_do_walk_or_jog_spec zone (Game.sim_id si) start
                (String.eqb (action b) "JOG") g)
      as (routes & g' & Hrun & Hlen & Hall).
    exists routes, g'. split; [exact Hrun |]. split; [exact Hall |].
    split; [exact Hlen |]. split; [discriminate |].
    intros _ si' ->. discriminate.
  - destruct (mem_str (action b) ["CAFE_IDLE"; "LIB_IDLE"; "DINING_IDLE";
                                  "GYM_IDLE"; "HOME_IDLE"]) eqn:E2.
    + destruct (_do_idle_spec zone (Game.sim_id si) start g)
        as (routes & g' & Hrun & Hlen & Hall).
      exists routes, g'. split; [exact Hrun |]. split; [exact Hall |].
      split; [destruct (String.eqb (action b) "JOG"); lia |]. split; [discriminate |].
      intros _ si' ->. discriminate.
    + destruct (String.eqb (action b) "NEIGHBOR_VISIT") eqn:E3.
      * destruct (_do_idle_spec zone (Game.sim_id si) start g)
          as (routes & g' & Hrun & Hlen & Hall).
        exists routes, g'. split; [exact Hrun |]. split; [exact Hall |].
        split; [destruct (String.eqb (action b) "JOG"); lia |]. split; [discriminate |].
        intros _ si' ->. discriminate.
      * exists [], g. split; [reflexivity |]. split; [constructor |].
        split; [destruct (String.eqb (action b) "JOG"); simpl; lia |].
        split; [discriminate | congruence].
Qed.

(* ===================================================================== *)
(** * Properties of the packaging tool                                    *)
(* ===================================================================== *)

(** ** Ignore patterns *)

Lemma replace_char_idem (old new : ascii) (s : string) :
  old <> new ->
  Tool.replace_char old new (Tool.replace_char old new s)
  = Tool.replace_char old new s.
Proof.
  intros Hne. induction s as [| c r IH]; simpl; [reflexivity |].
  rewrite IH. f_equal.
  destruct (Ascii.eqb_spec c old) as [-> | Hc].
  - destruct (Ascii.eqb_spec new old); [congruence | reflexivity].
  - destruct (Ascii.eqb_spec c old); [congruence | reflexivity].
Qed.

Lemma ignore_loop_iff (pf : Tool.Platform) (rp : string)
    (patterns : list string) :
  Tool.ignore_loop pf rp patterns = true <->
  exists pat,
    In pat patterns
    /\ ((Tool.endswith_slash pat = true /\ String.prefix pat rp = true)
        \/ Tool.fnmatch pf rp pat = true).
Proof.
  induction patterns as [| pat rest IH]; simpl.
  - split; [discriminate | intros (pat & [] & _)].
  - destruct (Tool.endswith_slash pat && String.prefix pat rp) eqn:Ed.
    + apply andb_true_iff in Ed. split; [| reflexivity].
      intros _. exists pat. split; [left; reflexivity | left; exact Ed].
    + destruct (Tool.fnmatch pf rp pat) eqn:Ef.
      * split; [| reflexivity].
        intros _. exists pat. split; [left; reflexivity | right; exact Ef].
      * rewrite IH. split.
        -- intros (q & Hq & Hm). exists q. split; [right; exact Hq | exact Hm].
        -- intros (q & [<- | Hq] & Hm).
           ++ destruct Hm as [[H1 H2] | H3]; [| congruence].
              rewrite H1, H2 in Ed. discriminate Ed.
           ++ exists q. split; assumption.
Qed.

(** X22: [should_ignore] ignores a path exactly when some pattern of the
    list ends in a slash and is a prefix of the path, or matches it by
    [fnmatch], the path being taken with its backslashes turned into
    slashes. So the verdict does not depend on the order or the repetition
    of the patterns, patterns added to the list can only ignore more, and a
    path written with backslashes is judged like the same path written with
    slashes. *)
Theorem should_ignore_iff (pf : Tool.Platform) (rel_path : string)
    (patterns : list string) :
  (Tool.should_ignore pf rel_path patterns = true <->
   exists pat,
     In pat patterns
     /\ ((Tool.endswith_slash pat = true
          /\ String.prefix pat
               (Tool.replace_char Tool.BACKSLASH "/"%char rel_path) = true)
         \/ Tool.fnmatch pf (Tool.replace_char Tool.BACKSLASH "/"%char rel_path) pat
            = true))
  /\ (forall more,
        Tool.should_ignore pf rel_path patterns = true ->
        Tool.should_ignore pf rel_path (patterns ++ more) = true
        /\ Tool.should_ignore pf rel_path (more ++ patterns) = true)
  /\ Tool.should_ignore pf (Tool.replace_char Tool.BACKSLASH "/"%char rel_path)
       patterns
     = Tool.should_ignore pf rel_path patterns.
Proof.
  unfold Tool.should_ignore. split; [apply ignore_loop_iff |]. split.
  - intros more H. apply ignore_loop_iff in H. destruct H as (pat & Hin & Hm).
    split; apply ignore_loop_iff; exists pat;
      (split; [apply in_or_app; auto | exact Hm]).
  - rewrite replace_char_idem; [reflexivity | discriminate].
Qed.

(** ** The ignore file *)

Lemma decode_encode_newlines (pf : Tool.Platform) (s : string) :
  cr_free s = true ->
  Tool.decode_newlines (Tool.encode_newlines pf s) = s.
Proof.
  induction s as [| c r IH]; simpl; [reflexivity |].
  intros H. apply andb_true_iff in H. destruct H as [Hc Hr].
  apply negb_true_iff in Hc.
  destruct (Ascii.eqb c Tool.LF && Tool.crlf pf) eqn:E.
  - apply andb_true_iff in E. destruct E as [E _].
    apply Ascii.eqb_eq in E. subst c. simpl. rewrite (IH Hr). reflexivity.
  - simpl. rewrite Hc, (IH Hr). reflexivity.
Qed.

Lemma line_free_cr_free (s : string) : line_free s = true -> cr_free s = true.
Proof.
  induction s as [| c r IH]; simpl; [reflexivity |].
  intros H. apply andb_true_iff in H. destruct H as [Hc Hr].
  rewrite (IH Hr), andb_true_r. apply negb_true_iff.
  destruct (Ascii.eqb_spec c Tool.CR) as [-> | Hne]; [| reflexivity].
  discriminate Hc.
Qed.

Lemma cr_free_append (s t : string) :
  cr_free s = true -> cr_free t = true -> cr_free (String.append s t) = true.
Proof.
  intros Hs Ht. induction s as [| c r IH]; simpl in *; [exact Ht |].
  apply andb_true_iff in Hs. destruct Hs as [Hc Hr].
  rewrite Hc, (IH Hr). reflexivity.
Qed.

Lemma lines_text_cr_free (ps : list string) :
  Forall (fun p => line_free p = true) ps -> cr_free (lines_text ps) = true.
Proof.
  induction 1 as [| p rest Hp _ IH]; simpl; [reflexivity |].
  apply cr_free_append; [apply line_free_cr_free; exact Hp |].
  simpl. exact IH.
Qed.

Lemma splitlines_line (p rest : string) :
  line_free p = true ->
  Tool.splitlines (String.append p (String Tool.LF rest))
  = p :: Tool.splitlines rest.
Proof.
  induction p as [| c r IH]; intros Hp.
  - simpl. destruct rest as [| c2 r2]; reflexivity.
  - simpl in Hp. apply andb_true_iff in Hp. destruct Hp as [Hc Hr].
    apply negb_true_iff in Hc.
    change (String.append (String c r) (String Tool.LF rest))
      with (String c (String.append r (String Tool.LF rest))).
    cbn [Tool.splitlines]. rewrite Hc, (IH Hr). reflexivity.
Qed.

Lemma splitlines_lines_text (ps : list string) :
  Forall (fun p => line_free p = true) ps ->
  Tool.splitlines (lines_text ps) = ps.
Proof.
  induction 1 as [| p rest Hp _ IH]; simpl; [reflexivity |].
  rewrite (splitlines_line p _ Hp), IH. reflexivity.
Qed.

Lemma append_assoc_string (a b c : string) :
  String.append (String.append a b) c = String.append a (String.append b c).
Proof.
  induction a as [| x a IH]; simpl; [reflexivity | rewrite IH; reflexivity].
Qed.

Lemma concat_lines (p : string) (rest : list string) :
  String.append (String.concat (String Tool.LF EmptyString) (p :: rest))
                (String Tool.LF EmptyString)
  = lines_text (p :: rest).
Proof.
  revert p. induction rest as [| q rest IH]; intros p.
  - reflexivity.
  - change (String.concat (String Tool.LF EmptyString) (p :: q :: rest))
      with (String.append p
              (String.append (String Tool.LF EmptyString)
                 (String.concat (String Tool.LF EmptyString) (q :: rest)))).
    rewrite append_assoc_string. cbn [lines_text]. f_equal.
    change (String Tool.LF
              (String.append
                 (String.concat (String Tool.LF EmptyString) (q :: rest))
                 (String Tool.LF EmptyString))
            = String Tool.LF (lines_text (q :: rest))).
    f_equal. apply IH.
Qed.

Lemma read_after_write (pf : Tool.Platform) (patterns : list string) :
  Forall (fun p => line_free p = true) patterns ->
  Tool.read_ignore_file (Tool.write_ignore_file pf patterns)
  = filter is_pattern_line (map Tool.strip patterns).
Proof.
  intros Hfree. unfold Tool.read_ignore_file, Tool.write_ignore_file.
  destruct patterns as [| p rest]; [reflexivity |].
  rewrite concat_lines.
  rewrite decode_encode_newlines by (apply lines_text_cr_free; exact Hfree).
  rewrite splitlines_lines_text by exact Hfree.
  reflexivity.
Qed.

(** X23: what [write_ignore_file] has written, [read_ignore_file] reads
    back, on either kind of platform line end: for patterns that hold no
    line boundary, the patterns read are the patterns written, each
    stripped, without those that are empty or begin with [#]. An empty list
    is written as an empty file and read back as an empty list; only a
    missing file gives [DEFAULT_IGNORE]. *)
Theorem ignore_file_round_trip (pf : Tool.Platform) (patterns : list string) :
  Forall (fun p => line_free p = true) patterns ->
  Tool.read_ignore_file (Tool.write_ignore_file pf patterns)
  = filter is_pattern_line (map Tool.strip patterns)
  /\ Tool.read_ignore_file (Tool.write_ignore_file pf []) = []
  /\ Tool.read_ignore_file None = Tool.DEFAULT_IGNORE.
Proof.
  intros Hfree. split; [| split; reflexivity].
  apply read_after_write. exact Hfree.
Qed.

(** The theorem on the default patterns, with CRLF line ends: they are
    read back as they were written. *)
Lemma ignore_file_round_trip_witness :
  Tool.read_ignore_file
    (Tool.write_ignore_file
       {| Tool.fnmatch := fun _ _ => false; Tool.crlf := true;
          Tool.str_int := fun _ => ""; Tool.sha256_hex := fun s => s |}
       Tool.DEFAULT_IGNORE)
  = Tool.DEFAULT_IGNORE.
Proof.
  refine (eq_trans
            (proj1 (ignore_file_round_trip
                      {| Tool.fnmatch := fun _ _ => false; Tool.crlf := true;
                         Tool.str_int := fun _ => "";
                         Tool.sha256_hex := fun s => s |}
                      Tool.DEFAULT_IGNORE _)) _).
  - repeat constructor.
  - reflexivity.
Defined.

(** ** Packing and the tree signature *)




Lemma write_all_names (files : list (string * option (Z * Z)))
    (names : list string) :
  Tool.write_all files = inr names ->
  names = map fst files /\ Forall (fun f => snd f <> None) files.
Proof.
  revert names. induction files as [| [rel [m |]] rest IH]; intros names H;
    simpl in H.
  - inversion H. split; [reflexivity | constructor].
  - destruct (Tool.write_all rest) as [e | ns]; [discriminate |].
    inversion H; subst. destruct (IH ns eq_refl) as [-> Hall].
    split; [reflexivity |]. constructor; [discriminate | exact Hall].
  - discriminate.
Qed.



(** Packing the sample workspace under the default patterns keeps the two
    sources, root first. *)
Example zip_dir_sample :
  Tool.zip_dir Scenario.simple_platform Scenario.workspace
    Tool.DEFAULT_IGNORE
  = inr ["a.py"; "sub/b.py"].
Proof. reflexivity. Qed.

Lemma sign_all_closed (pf : Tool.Platform)
    (files : list (string * option (Z * Z))) :
  forall n sz fed,
    Tool.sign_all pf files (n, sz, fed) =
    (n + Z.of_nat (List.length (present files)),
     sz + total_size (present files),
     String.append fed (feed pf (present files))).
Proof.
  induction files as [| [rel [[size mtime] |]] rest IH]; intros n sz fed.
  - simpl. rewrite !Z.add_0_r. f_equal.
    induction fed as [| c r IHr]; simpl; [reflexivity | rewrite <- IHr at 1].
    reflexivity.
  - cbn [Tool.sign_all]. rewrite IH.
    change (present ((rel, Some (size, mtime)) :: rest))
      with ((rel, (size, mtime)) :: present rest).
    cbn [List.length total_size fold_right feed fst snd].
    f_equal; [f_equal; [lia | fold (total_size (present rest)); lia] |].
    rewrite !append_assoc_string. reflexivity.
  - cbn [Tool.sign_all]. rewrite IH. reflexivity.
Qed.

(** X25: the signature the watcher compares is made of the files that
    would be packed. It counts the kept files of the walk that still exist,
    adds up their sizes, and hashes their relative paths, modification times
    and sizes in walk order; a kept file that has vanished is skipped
    instead of raising. Whenever [zip_dir] completes on the same tree and
    patterns, the files the signature covers are exactly the archive
    names, in the same order. *)
Theorem tree_signature_covers_packed_files (pf : Tool.Platform)
    (path : Tool.Node) (patterns : list string) :
  Tool.compute_tree_signature pf path patterns =
    (Z.of_nat (List.length (present (Tool.walk pf patterns "" path))),
     total_size (present (Tool.walk pf patterns "" path)),
     Tool.sha256_hex pf (feed pf (present (Tool.walk pf patterns "" path))))
  /\ (forall names,
        Tool.zip_dir pf path patterns = inr names ->
        map fst (present (Tool.walk pf patterns "" path)) = names).
Proof.
  split.
  - unfold Tool.compute_tree_signature. rewrite sign_all_closed. reflexivity.
  - unfold Tool.zip_dir. intros names H.
    apply write_all_names in H. destruct H as [-> Hall].
    induction Hall as [| [rel [m |]] rest Hx _ IH]; simpl.
    + reflexivity.
    + f_equal. exact IH.
    + exfalso. apply Hx. reflexivity.
Qed.

(** The signature of the sample workspace covers the two sources. *)
Example tree_signature_sample :
  Tool.compute_tree_signature Scenario.simple_platform Scenario.workspace
    Tool.DEFAULT_IGNORE
  = (2, 160, "a.py##sub/b.py##").
Proof. reflexivity. Qed.

(** ** Saving and loading the ignore list *)

Lemma append_nil_r (s : string) : String.append s EmptyString = s.
Proof.
  induction s as [| c r IH]; simpl; [reflexivity | rewrite IH; reflexivity].
Qed.

Lemma rev_string_twice (s : string) :
  forall acc1 acc2,
    Py.rev_string acc2 (Py.rev_string acc1 s)
    = Py.rev_string (String.append s acc2) acc1.
Proof.
  induction s as [| c r IH]; intros acc1 acc2; simpl; [reflexivity |].
  rewrite IH. reflexivity.
Qed.

Lemma rev_string_involutive (s : string) :
  Py.rev_string EmptyString (Py.rev_string EmptyString s) = s.
Proof. rewrite rev_string_twice. simpl. apply append_nil_r. Qed.

Lemma lstrip_head_ok (s : string) : head_ok (Tool.lstrip s) = true.
Proof.
  induction s as [| c r IH]; simpl; [reflexivity |].
  destruct (Tool.is_whitespace c) eqn:E; [exact IH |].
  simpl. rewrite E. reflexivity.
Qed.

Lemma lstrip_fixed (s : string) : head_ok s = true -> Tool.lstrip s = s.
Proof.
  destruct s as [| c r]; simpl; [reflexivity |].
  intros H. apply negb_true_iff in H. rewrite H. reflexivity.
Qed.

Lemma lstrip_last_ok (s : string) :
  last_ok s = true -> last_ok (Tool.lstrip s) = true.
Proof.
  unfold last_ok. induction s as [| c r IH]; simpl; [reflexivity |].
  destruct (Tool.is_whitespace c) eqn:E; [| auto].
  destruct (last_char r) as [x |] eqn:El; [exact IH |].
  intros _. destruct r as [| c2 r2]; [reflexivity |].
  simpl in El. destruct (last_char r2); discriminate El.
Qed.

Lemma last_char_rev (s : string) :
  forall acc,
    last_char (Py.rev_string acc s)
    = match last_char acc with
      | Some x => Some x
      | None => match s with
                | EmptyString => None
                | String c _ => Some c
                end
      end.
Proof.
  induction s as [| c r IH]; intros acc; simpl.
  - destruct (last_char acc); reflexivity.
  - rewrite IH. simpl. destruct (last_char acc); reflexivity.
Qed.

Lemma head_rev (s : string) :
  forall acc,
    head_ok (Py.rev_string acc s)
    = match last_char s with
      | Some x => negb (Tool.is_whitespace x)
      | None => head_ok acc
      end.
Proof.
  induction s as [| c r IH]; intros acc; simpl; [reflexivity |].
  rewrite IH. destruct (last_char r); reflexivity.
Qed.

Lemma strip_shape (s : string) :
  head_ok (Tool.strip s) = true /\ last_ok (Tool.strip s) = true.
Proof.
  unfold Tool.strip.
  set (a := Tool.lstrip s).
  set (b := Py.rev_string EmptyString a).
  assert (Ha : head_ok a = true) by apply lstrip_head_ok.
  assert (Hb : last_ok b = true).
  { unfold last_ok, b. rewrite last_char_rev. simpl.
    destruct a as [| c r]; [reflexivity | exact Ha]. }
  split.
  - rewrite head_rev. apply lstrip_last_ok in Hb. exact Hb.
  - unfold last_ok. rewrite last_char_rev. simpl.
    pose proof (lstrip_head_ok b) as Hc.
    destruct (Tool.lstrip b) as [| c r]; [reflexivity | exact Hc].
Qed.

Lemma strip_fixed (s : string) :
  head_ok s = true -> last_ok s = true -> Tool.strip s = s.
Proof.
  intros Hh Hl. unfold Tool.strip. rewrite (lstrip_fixed s Hh).
  rewrite lstrip_fixed; [apply rev_string_involutive |].
  rewrite head_rev. exact Hl.
Qed.

Lemma strip_idempotent (s : string) :
  Tool.strip (Tool.strip s) = Tool.strip s.
Proof.
  destruct (strip_shape s) as [Hh Hl]. apply strip_fixed; assumption.
Qed.

Lemma line_free_rev (s : string) :
  forall acc,
    line_free (Py.rev_string acc s) = line_free acc && line_free s.
Proof.
  induction s as [| c r IH]; intros acc; simpl.
  - rewrite andb_true_r. reflexivity.
  - rewrite IH. simpl.
    destruct (Tool.is_line_boundary c), (line_free acc), (line_free r);
      reflexivity.
Qed.

Lemma line_free_lstrip (s : string) :
  line_free s = true -> line_free (Tool.lstrip s) = true.
Proof.
  induction s as [| c r IH]; simpl; [reflexivity |].
  intros H. destruct (Tool.is_whitespace c); [| exact H].
  apply andb_true_iff in H. apply IH. tauto.
Qed.

Lemma line_free_strip (s : string) :
  line_free s = true -> line_free (Tool.strip s) = true.
Proof.
  intros H. unfold Tool.strip. rewrite line_free_rev. simpl.
  apply line_free_lstrip. rewrite line_free_rev. simpl.
  apply line_free_lstrip. exact H.
Qed.

Lemma splitlines_line_free_bounded (n : nat) :
  forall s,
    (String.length s <= n)%nat ->
    Forall (fun ln => line_free ln = true) (Tool.splitlines s).
Proof.
  induction n as [| n IH]; intros s Hlen.
  - destruct s; [constructor | simpl in Hlen; lia].
  - destruct s as [| c r]; [constructor |].
    simpl in Hlen. cbn [Tool.splitlines].
    destruct (Tool.is_line_boundary c) eqn:Eb.
    + destruct r as [| c2 r2]; [repeat constructor |].
      destruct (Ascii.eqb c Tool.CR && Ascii.eqb c2 Tool.LF).
      * constructor; [reflexivity |]. apply IH. simpl in Hlen. lia.
      * constructor; [reflexivity |]. apply IH. lia.
    + assert (Hr : Forall (fun ln => line_free ln = true) (Tool.splitlines r))
        by (apply IH; lia).
      destruct (Tool.splitlines r) as [| hd tl].
      * repeat constructor. simpl. rewrite Eb. reflexivity.
      * inversion Hr; subst. constructor; [| assumption].
        simpl. rewrite Eb. simpl. assumption.
Qed.

Lemma splitlines_line_free (s : string) :
  Forall (fun ln => line_free ln = true) (Tool.splitlines s).
Proof. apply (splitlines_line_free_bounded (String.length s)). lia. Qed.

(** X26: what the Save button of the ignore tab writes, the Load button
    reads back. Whatever text the box holds, the patterns saved (the lines
    of the box, stripped, blank lines dropped) come back from the file
    unchanged and in order, except those that begin with [#], which are
    read as comments and dropped. *)
Theorem ignore_save_then_load (pf : Tool.Platform) (box : string) :
  Tool.read_ignore_file (Tool.write_ignore_file pf (Tool.save_patterns box))
  = filter (fun ln => negb (Tool.startswith_hash ln))
           (Tool.save_patterns box).
Proof.
  rewrite read_after_write.
  - unfold Tool.save_patterns. rewrite map_map.
    induction (Tool.splitlines box) as [| ln rest IH]; simpl; [reflexivity |].
    destruct (String.eqb (Tool.strip ln) "") eqn:E; simpl; [exact IH |].
    rewrite strip_idempotent. unfold is_pattern_line at 1. rewrite E. simpl.
    destruct (Tool.startswith_hash (Tool.strip ln)); simpl;
      [exact IH | rewrite IH; reflexivity].
  - unfold Tool.save_patterns. apply Forall_forall. intros p Hp.
    apply in_map_iff in Hp. destruct Hp as (ln & <- & Hln).
    apply filter_In in Hln. destruct Hln as [Hln _].
    apply line_free_strip.
    pose proof (splitlines_line_free box) as Hall.
    rewrite Forall_forall in Hall. apply Hall. exact Hln.
Qed.

(** A box with padded lines, a blank line, a comment and a CR LF line end. *)
Example ignore_save_then_load_sample :
  Tool.read_ignore_file
    (Tool.write_ignore_file Scenario.simple_platform
       (Tool.save_patterns Scenario.box))
  = ["*.pyc"; ".git/"].
Proof. reflexivity. Qed.
